(** * World construction and the deadlock watchdog (server/world/conf.go)

    A shallow embedding of [Config.New] and of the watchdog goroutine it
    starts, together with [captureCallerInfo] (server/world/debug.go).

    Conventions:
    - Go's [int], [int64] and [time.Duration] are [Z]; durations and clock
      readings are in nanoseconds.
    - A nil-able interface or pointer field is an [option].
    - [*Settings] is a location in a store of settings objects, so that
      several worlds opened over one provider share one reference count.
    - A buffered channel is its capacity and the list of buffered items,
      oldest first. *)

From Stdlib Require Import ZArith Lia Ascii.
From stdpp Require Import base tactics option list gmap strings pretty.

Local Open Scope Z_scope.

(** ** Time *)

Module time.

Definition Nanosecond : Z := 1.
Definition Second : Z := 1000000000 * Nanosecond.
Definition Minute : Z := 60 * Second.

Definition minDuration : Z := - 2 ^ 63.
Definition maxDuration : Z := 2 ^ 63 - 1.

(** [t.Sub(u)]: the difference of two clock readings, saturated to the
    range of a Duration. *)
Definition Sub (t u : Z) : Z :=
  let d := t - u in
  if d >? maxDuration then maxDuration
  else if d <? minDuration then minDuration
  else d.

(** [time.Since(t)] is [time.Now().Sub(t)]; the current clock reading is
    passed in. *)
Definition Since (now t : Z) : Z := Sub now t.

End time.

(** ** Strings *)

(** The Go escape [\n]. *)
Definition nl : string := String "010"%char EmptyString.

(** [fmt.Sprintf("%d", n)]. *)
Definition sprintf_d (n : Z) : string := pretty n.

(** [Contains s sub]: [sub] occurs in [s] (Go's [strings.Contains]). *)
Definition Contains (s sub : string) : Prop :=
  ∃ pre post, s = pre +:+ sub +:+ post.

(** A decidable version, for evaluating on concrete messages. *)
Fixpoint isPrefix (p s : string) : bool :=
  match p, s with
  | EmptyString, _ => true
  | String a p', String b s' => if decide (a = b) then isPrefix p' s' else false
  | String _ _, EmptyString => false
  end.

Fixpoint containsb (s sub : string) : bool :=
  isPrefix sub s ||
  match s with
  | EmptyString => false
  | String _ s' => containsb s' sub
  end.

(** ** Atomic counters *)

Module atomic.

(** Wrap-around of a signed 32-bit integer. *)
Definition wrap32 (z : Z) : Z := (z + 2 ^ 31) mod 2 ^ 32 - 2 ^ 31.

Definition int32_range (z : Z) : Prop := - 2 ^ 31 ≤ z < 2 ^ 31.

(** [Add(delta)] on an atomic.Int32: the new value, which is both stored
    and returned. *)
Definition Add (v delta : Z) : Z := wrap32 (v + delta).

End atomic.

(** ** Channels *)

Record Chan (A : Type) := mkChan {
  chan_cap : nat;
  chan_buf : list A;
}.
Arguments mkChan {A} _ _.
Arguments chan_cap {A} _.
Arguments chan_buf {A} _.

(** [make(chan A, n)] *)
Definition make_chan {A} (n : nat) : Chan A := mkChan n [].

(** [ch <- x]: [None] when the buffer is full and the sender blocks. *)
Definition send {A} (ch : Chan A) (x : A) : option (Chan A) :=
  if decide (length (chan_buf ch) < chan_cap ch)%nat
  then Some (mkChan (chan_cap ch) (chan_buf ch ++ [x]))
  else None.

(** [x := <-ch]: [None] when the buffer is empty, which in a [select] with
    a [default] case selects the default. *)
Definition recv {A} (ch : Chan A) : option (A * Chan A) :=
  match chan_buf ch with
  | [] => None
  | x :: rest => Some (x, mkChan (chan_cap ch) rest)
  end.

Fixpoint sendAll {A} (ch : Chan A) (xs : list A) : option (Chan A) :=
  match xs with
  | [] => Some ch
  | x :: xs' => ch' ← send ch x; sendAll ch' xs'
  end.

Fixpoint recvN {A} (n : nat) (ch : Chan A) : list A * Chan A :=
  match n with
  | O => ([], ch)
  | S n' =>
      match recv ch with
      | None => ([], ch)
      | Some (x, ch') => let '(xs, ch'') := recvN n' ch' in (x :: xs, ch'')
      end
  end.

(** ** Call-stack capture (debug.go) *)

Record Frame := mkFrame {
  Function : string;
  File : string;
  Line : Z;
}.

(** [fmt.Sprintf("%s at %s:%d", frame.Function, frame.File, frame.Line)] *)
Definition formatFrame (fr : Frame) : string :=
  Function fr +:+ " at " +:+ File fr +:+ ":" +:+ sprintf_d (Line fr).

(** [runtime.Callers(skip, pc)] fills [pc] with the return addresses of the
    calling goroutine's stack, innermost first, after skipping [skip]
    entries, and returns how many it wrote; the capture is therefore the
    first [len(pc)] frames that remain. Frame 0 of [stack] is
    [runtime.Callers] itself. *)
Definition Callers (skip : nat) (pclen : nat) (stack : list Frame) : list Frame :=
  take pclen (drop skip stack).

(** [captureCallerInfo], given the goroutine's stack at the call to
    [runtime.Callers]. *)
Definition captureCallerInfo (stack : list Frame) : list string :=
  let pc := Callers 2 64 stack in
  match pc with
  | [] => ["No callers found"]
  | _ => formatFrame <$> pc
  end.

(** ** Settings and collaborators *)

(** A pointer is a location in a store. *)
Definition loc := nat.

(** Modelled from the spec: the [Settings] type is not under src. [New]
    reads its [CurrentTick] and atomically increments its [ref], the shared
    reference count; [World.Name] reads its [Name]. The width of the
    counter is not visible in [New]; it is taken to be the narrowest of
    Go's atomic integer types, 32 bits signed. Below 2^31 all of them
    agree. *)
Record Settings := mkSettings {
  Name : string;
  CurrentTick : Z;
  ref : Z;
}.

Abbreviation Store := (gmap loc Settings).

(** The interfaces and library values [New] refers to and that are declared
    elsewhere: loggers, dimensions, providers, generators, handlers and
    random sources, with the defaults [New] substitutes. Only the methods
    [New] calls are listed. *)
Class Collaborators := {
  Logger : Type;
  Dimension : Type;
  Provider : Type;
  Generator : Type;
  Handler : Type;
  RandSource : Type;
  EntityRegistry : Type;
  PortalDestinationFunc : Type;
  ScheduledTickQueue : Type;
  (** [slog.Default()] *)
  slog_Default : Logger;
  Overworld : Dimension;
  (** [Dimension.Range()] *)
  Range : Dimension → Z * Z;
  NopProvider : Provider;
  (** [Provider.Settings()]: a pointer to a settings object; the provider
      may allocate it on the call. *)
  Provider_Settings : Provider → Store → loc * Store;
  NopGenerator : Generator;
  NopHandler : Handler;
  (** [rand.NewPCG(seed1, seed2)] *)
  rand_NewPCG : Z → Z → RandSource;
  newScheduledTickQueue : Z → ScheduledTickQueue;
}.

(** ** Config *)

Module Config.

Local Abbreviation ProviderI := Provider.
Local Abbreviation GeneratorI := Generator.
Local Abbreviation RandSourceI := RandSource.

Record t `{Collaborators} := mk {
  Log : option Logger;
  Dim : option Dimension;
  PortalDestination : option PortalDestinationFunc;
  Provider : option Provider;
  Generator : option Generator;
  ReadOnly : bool;
  SaveInterval : Z;
  RandomTickSpeed : Z;
  RandSource : option RandSource;
  Entities : EntityRegistry;
}.

Section Setters.
Context `{Collaborators}.

Definition setLog (c : t) (v : option Logger) : t :=
  mk _ v (Dim c) (PortalDestination c) (Provider c) (Generator c)
     (ReadOnly c) (SaveInterval c) (RandomTickSpeed c) (RandSource c) (Entities c).
Definition setDim (c : t) (v : option Dimension) : t :=
  mk _ (Log c) v (PortalDestination c) (Provider c) (Generator c)
     (ReadOnly c) (SaveInterval c) (RandomTickSpeed c) (RandSource c) (Entities c).
Definition setProvider (c : t) (v : option ProviderI) : t :=
  mk _ (Log c) (Dim c) (PortalDestination c) v (Generator c)
     (ReadOnly c) (SaveInterval c) (RandomTickSpeed c) (RandSource c) (Entities c).
Definition setGenerator (c : t) (v : option GeneratorI) : t :=
  mk _ (Log c) (Dim c) (PortalDestination c) (Provider c) v
     (ReadOnly c) (SaveInterval c) (RandomTickSpeed c) (RandSource c) (Entities c).
Definition setSaveInterval (c : t) (v : Z) : t :=
  mk _ (Log c) (Dim c) (PortalDestination c) (Provider c) (Generator c)
     (ReadOnly c) v (RandomTickSpeed c) (RandSource c) (Entities c).
Definition setRandomTickSpeed (c : t) (v : Z) : t :=
  mk _ (Log c) (Dim c) (PortalDestination c) (Provider c) (Generator c)
     (ReadOnly c) (SaveInterval c) v (RandSource c) (Entities c).
Definition setRandSource (c : t) (v : option RandSourceI) : t :=
  mk _ (Log c) (Dim c) (PortalDestination c) (Provider c) (Generator c)
     (ReadOnly c) (SaveInterval c) (RandomTickSpeed c) v (Entities c).
End Setters.

End Config.

(** ** Transactions and the World *)

(** The body of a transaction: the ticker's [tick] method, or some other
    function. *)
Inductive ExecFunc :=
  | tick
  | otherFunc (n : nat).

(** Modelled from the spec: the [transaction] type is not under src. A
    transaction is a unit of work [f], the caller information recorded when it
    was submitted (what [CallerInfo()] returns), and a completion channel
    [c], named by a number, that is closed once the transaction has run. *)
Record transaction := mkTx {
  f : ExecFunc;
  CallerInfo : list string;
  c : nat;
}.

Module World.

Local Abbreviation RandSourceI := RandSource.
Local Abbreviation SettingsName := Name.

(** The fields [New] sets that hold state; the three maps it creates empty
    ([entities], [viewers], [chunks]) and [weather] are left out. [running]
    is the counter of the wait group, [closing] tells whether the channel
    of that name has been closed. *)
Record t `{Collaborators} := mk {
  scheduledUpdates : ScheduledTickQueue;
  closing : bool;
  queue : Chan transaction;
  r : RandSourceI;
  advance : bool;
  conf : Config.t;
  ra : Z * Z;
  set : loc;
  handler : Handler;
  running : Z;
  runningTx : option transaction;
  runningTxAt : Z;
}.

(** Modelled from the spec: [World.Name] is not under src; the World's
    name is the one in its settings. *)
Definition Name `{Collaborators} (w : t) (st : Store) : string :=
  default "" (SettingsName <$> st !! set w).

Section Setters.
Context `{Collaborators}.

Definition setClosing (w : t) (v : bool) : t :=
  mk _ (scheduledUpdates w) v (queue w) (r w) (advance w) (conf w) (ra w)
     (set w) (handler w) (running w) (runningTx w) (runningTxAt w).
Definition setQueue (w : t) (v : Chan transaction) : t :=
  mk _ (scheduledUpdates w) (closing w) v (r w) (advance w) (conf w) (ra w)
     (set w) (handler w) (running w) (runningTx w) (runningTxAt w).
Definition setRunning (w : t) (v : Z) : t :=
  mk _ (scheduledUpdates w) (closing w) (queue w) (r w) (advance w) (conf w)
     (ra w) (set w) (handler w) v (runningTx w) (runningTxAt w).
Definition setRunningTx (w : t) (v : option transaction) (at_ : Z) : t :=
  mk _ (scheduledUpdates w) (closing w) (queue w) (r w) (advance w) (conf w)
     (ra w) (set w) (handler w) (running w) v at_.
End Setters.

End World.

(** ** Config.New: defaults and construction (conf.go, lines 63-102) *)

Section New.
Context `{Collaborators}.

(** Lines 64-85: every unset option is given its default. [now] is the
    reading of [time.Now().UnixNano()]. *)
Definition New_defaults (conf : Config.t) (now : Z) : Config.t :=
  let conf :=
    match Config.Log conf with
    | None => Config.setLog conf (Some slog_Default)
    | Some _ => conf
    end in
  let conf :=
    match Config.Dim conf with
    | None => Config.setDim conf (Some Overworld)
    | Some _ => conf
    end in
  let conf :=
    match Config.Provider conf with
    | None => Config.setProvider conf (Some NopProvider)
    | Some _ => conf
    end in
  let conf :=
    if Config.SaveInterval conf =? 0
    then Config.setSaveInterval conf (time.Minute * 10)
    else conf in
  let conf :=
    match Config.Generator conf with
    | None => Config.setGenerator conf (Some NopGenerator)
    | Some _ => conf
    end in
  let conf :=
    if Config.RandomTickSpeed conf =? 0
    then Config.setRandomTickSpeed conf 3
    else conf in
  let conf :=
    match Config.RandSource conf with
    | None =>
        let t := now mod 2 ^ 64 in
        Config.setRandSource conf (Some (rand_NewPCG t t))
    | Some _ => conf
    end in
  conf.

(** Lines 63-102: the World as it is before its background tasks are
    started. The settings object of the provider lives in the store [st];
    its reference count is incremented there. A step that would
    dereference nil gives [None]. *)
Definition New (conf : Config.t) (st : Store) (now : Z)
    : option (World.t * Store) :=
  let conf := New_defaults conf now in
  prov ← Config.Provider conf;
  let '(p, st) := Provider_Settings prov st in
  s ← st !! p;
  src ← Config.RandSource conf;
  let n := atomic.Add (ref s) 1 in
  let st := <[p := mkSettings (Name s) (CurrentTick s) n]> st in
  dim ← Config.Dim conf;
  Some (World.mk _
          (newScheduledTickQueue (CurrentTick s))
          false
          (make_chan 128)
          src
          (n =? 1)
          conf
          (Range dim)
          p
          NopHandler
          0
          None
          0,
        st).

End New.

(** ** The deadlock watchdog (conf.go, lines 111-160) *)

Section Watchdog.
Context `{Collaborators}.

Definition deadlockHeader : string :=
  "Deadlock detected in world transaction. The transaction has been running for more than 20 seconds.".
Definition beginTrace : string :=
  nl +:+ "------------------ BEGIN stack trace ------------------".
Definition endTrace : string :=
  nl +:+ "------------------- END stack trace -------------------".

(** [for _, trace := range info { panicMsg += "\n" + trace }] *)
Fixpoint appendTraces (panicMsg : string) (info : list string) : string :=
  match info with
  | [] => panicMsg
  | trace :: rest => appendTraces (panicMsg +:+ (nl +:+ trace)) rest
  end.

(** What one pending transaction numbered [no] adds to the message
    (lines 134-139). *)
Definition appendPending (panicMsg : string) (no : Z) (pendingTx : transaction)
    : string :=
  let panicMsg := panicMsg +:+ ((nl +:+ nl) +:+ ("TX NO " +:+ sprintf_d no +:+ ":")) in
  let panicMsg := panicMsg +:+ beginTrace in
  let panicMsg := appendTraces panicMsg (CallerInfo pendingTx) in
  panicMsg +:+ endTrace.

(** The loop of lines 126-143, on the buffer of [w.queue]. Every iteration
    is one [select]: with a transaction buffered it receives the oldest
    one, with none it takes the [default] case, which sets [exitLoop].
    The [break] of line 132 leaves the [select] statement, not the [for]
    loop, so the loop goes on to its next iteration. The result is what
    is left in the buffer, the final [no], and the message. *)
Fixpoint drainPending (buf : list transaction) (no : Z) (panicMsg : string)
    : list transaction * Z * string :=
  match buf with
  | [] => (buf, no, panicMsg)
  | pendingTx :: rest =>
      let no := no + 1 in
      if no >? 10
      then drainPending rest no (panicMsg +:+ (nl +:+ "..."))
      else drainPending rest no (appendPending panicMsg no pendingTx)
  end.

(** The message built on lines 120-150 for the hanging transaction
    [hanging], and the queue as the loop leaves it. [name] is [w.Name()]. *)
Definition deadlockReport (name : string) (q : Chan transaction)
    (hanging : transaction) : string * Chan transaction :=
  let panicMsg := deadlockHeader in
  let panicMsg := panicMsg +:+ ((nl +:+ nl +:+ "WORLD NAME: ") +:+ name) in
  let panicMsg := panicMsg +:+ (nl +:+ nl +:+ "PENDING TRANSACTIONS:") in
  let '(buf, _, panicMsg) := drainPending (chan_buf q) 0 panicMsg in
  let panicMsg := panicMsg +:+ (nl +:+ nl +:+ "HANGING TRANSACTION:") in
  let panicMsg := panicMsg +:+ beginTrace in
  let panicMsg := appendTraces panicMsg (CallerInfo hanging) in
  let panicMsg := panicMsg +:+ endTrace in
  (panicMsg, mkChan (chan_cap q) buf).

(** One firing of the watchdog's ticker (lines 116-154) at clock reading
    [now]: [Some] with the panic message and the World as the panic
    leaves it when a deadlock is detected, [None] otherwise. *)
Definition watchdogTick (w : World.t) (st : Store) (now : Z)
    : option (string * World.t) :=
  match World.runningTx w with
  | Some hanging =>
      if time.Since now (World.runningTxAt w) >? 20 * time.Second
      then
        let '(panicMsg, q) :=
          deadlockReport (World.Name w st) (World.queue w) hanging in
        Some (panicMsg, World.setQueue w q)
      else None
  | None => None
  end.

(** What the watchdog's [select] picks, in order: its ticker fired, seeing
    the World and store as they are under the lock at that moment, or the
    closing channel was found closed. *)
Inductive WatchdogEvent :=
  | TickerFired (w : World.t) (st : Store) (now : Z)
  | ClosingObserved.

Inductive WatchdogOutcome :=
  | Panicked (panicMsg : string)
  | Returned
  | Waiting.

(** The watchdog goroutine run over a sequence of events; [Returned] is
    the exit of lines 155-157, after [w.running.Done()]. *)
Fixpoint watchdog (evs : list WatchdogEvent) : WatchdogOutcome :=
  match evs with
  | [] => Waiting
  | ClosingObserved :: _ => Returned
  | TickerFired w st now :: rest =>
      match watchdogTick w st now with
      | Some (panicMsg, _) => Panicked panicMsg
      | None => watchdog rest
      end
  end.

End Watchdog.

(** ** Config.New: background tasks and the initial tick (lines 104-163) *)

(** The four goroutines [New] starts: [t.tickLoop(w)], [w.autoSave()],
    [w.handleTransactions()] and the watchdog closure. *)
Inductive Task :=
  | TickDriver
  | AutoSaveWorker
  | Executor
  | Watchdog.

Global Instance Task_eq_dec : EqDecision Task.
Proof. solve_decision. Defined.

Inductive TaskState :=
  | NotStarted
  | Started
  | Exited.

Global Instance TaskState_eq_dec : EqDecision TaskState.
Proof. solve_decision. Defined.

(** Where the goroutine that called [New] stands: before line 104, before
    the [go] statement of a task, before the call of [w.Exec] on line 162,
    receiving from the channel [w.Exec] returned, or returned. *)
Inductive NewPc :=
  | AtAdd
  | AtGo (t : Task)
  | AtExec
  | AtAwait (done : nat)
  | AtReturn.

(** The statement after the [go] statement of a task. *)
Definition afterGo (t : Task) : NewPc :=
  match t with
  | TickDriver => AtGo AutoSaveWorker
  | AutoSaveWorker => AtGo Executor
  | Executor => AtGo Watchdog
  | Watchdog => AtExec
  end.

Definition allTasks : list Task := [TickDriver; AutoSaveWorker; Executor; Watchdog].

(** Whether [New], standing at [pc], has executed the [go] statement of
    task [t]. *)
Definition goDone (pc : NewPc) (t : Task) : bool :=
  match pc with
  | AtAdd => false
  | AtGo next =>
      match next, t with
      | TickDriver, _ => false
      | AutoSaveWorker, TickDriver => true
      | AutoSaveWorker, _ => false
      | Executor, (TickDriver | AutoSaveWorker) => true
      | Executor, _ => false
      | Watchdog, Watchdog => false
      | Watchdog, _ => true
      end
  | AtExec | AtAwait _ | AtReturn => true
  end.

Section Lifecycle.
Context `{Collaborators}.

(** The World with its goroutines. [executed] lists the transactions that
    have run to completion, oldest first; [closedChans] holds the
    completion channels that have been closed; [nextChan] names the next
    channel to be made; [crashed] holds the message of the watchdog's
    panic once it has been raised. *)
Record Sys := mkSys {
  world : World.t;
  store : Store;
  pc : NewPc;
  tasks : Task → TaskState;
  executed : list transaction;
  closedChans : gset nat;
  nextChan : nat;
  crashed : option string;
}.

(** The state in which [New] reaches line 104. *)
Definition initSys (w : World.t) (st : Store) : Sys :=
  mkSys w st AtAdd (λ _, NotStarted) [] ∅ 0%nat None.

Definition setTask (ts : Task → TaskState) (t : Task) (v : TaskState)
    : Task → TaskState :=
  λ t', if decide (t' = t) then v else ts t'.

(** The number of tasks that have exited. *)
Definition exited (v : TaskState) : Z :=
  match v with
  | Exited => 1
  | _ => 0
  end.

Definition exitedCount (ts : Task → TaskState) : Z :=
  foldr (λ t n, exited (ts t) + n) 0 allTasks.

(** One step of one goroutine. A task leaves on finding [w.closing]
    closed, calling [w.running.Done()] on its way out: for the watchdog
    these are lines 155-157.

    Modelled from the spec: [tickLoop], [autoSave], [handleTransactions],
    [Exec] and [Close] are not under src. Each background task stops on
    the shutdown signal and decrements the counter on exit, the Executor
    only between transactions; [Exec] enqueues the transaction, blocking
    while the queue is full, and returns its completion channel; the
    Executor takes the oldest queued transaction, records it with its
    start time, runs it, clears the record and signals completion. *)
Inductive step : Sys → Sys → Prop :=
  (* line 104: w.running.Add(4) *)
  | step_add s :
      crashed s = None → pc s = AtAdd →
      step s (mkSys (World.setRunning (world s) (World.running (world s) + 4))
                    (store s) (AtGo TickDriver) (tasks s) (executed s)
                    (closedChans s) (nextChan s) None)
  (* lines 107-111: the go statements *)
  | step_go s t :
      crashed s = None → pc s = AtGo t →
      step s (mkSys (world s) (store s) (afterGo t) (setTask (tasks s) t Started)
                    (executed s) (closedChans s) (nextChan s) None)
  (* line 162: w.Exec(t.tick) *)
  | step_exec s info q :
      crashed s = None → pc s = AtExec →
      send (World.queue (world s)) (mkTx tick info (nextChan s)) = Some q →
      step s (mkSys (World.setQueue (world s) q) (store s) (AtAwait (nextChan s))
                    (tasks s) (executed s) (closedChans s) (S (nextChan s)) None)
  (* lines 162-163: the receive completes once the channel is closed *)
  | step_return s done :
      crashed s = None → pc s = AtAwait done → done ∈ closedChans s →
      step s (mkSys (world s) (store s) AtReturn (tasks s) (executed s)
                    (closedChans s) (nextChan s) None)
  (* another caller submits a transaction *)
  | step_submit s fn info q :
      crashed s = None →
      send (World.queue (world s)) (mkTx fn info (nextChan s)) = Some q →
      step s (mkSys (World.setQueue (world s) q) (store s) (pc s) (tasks s)
                    (executed s) (closedChans s) (S (nextChan s)) None)
  (* the Executor takes the next transaction *)
  | step_tx_begin s tx q now :
      crashed s = None → tasks s Executor = Started →
      World.runningTx (world s) = None →
      recv (World.queue (world s)) = Some (tx, q) →
      step s (mkSys (World.setRunningTx (World.setQueue (world s) q) (Some tx) now)
                    (store s) (pc s) (tasks s) (executed s) (closedChans s)
                    (nextChan s) None)
  (* the transaction has run: the record is cleared, completion signalled *)
  | step_tx_end s tx :
      crashed s = None → World.runningTx (world s) = Some tx →
      step s (mkSys (World.setRunningTx (world s) None (World.runningTxAt (world s)))
                    (store s) (pc s) (tasks s) (executed s ++ [tx])
                    ({[ c tx ]} ∪ closedChans s) (nextChan s) None)
  (* the shutdown signal: close(w.closing) *)
  | step_close s :
      crashed s = None → World.closing (world s) = false →
      step s (mkSys (World.setClosing (world s) true) (store s) (pc s) (tasks s)
                    (executed s) (closedChans s) (nextChan s) None)
  (* a task observes the signal: w.running.Done(); return *)
  | step_task_exit s t :
      crashed s = None → tasks s t = Started →
      World.closing (world s) = true →
      (t = Executor → World.runningTx (world s) = None) →
      step s (mkSys (World.setRunning (world s) (World.running (world s) - 1))
                    (store s) (pc s) (setTask (tasks s) t Exited) (executed s)
                    (closedChans s) (nextChan s) None)
  (* lines 116-153: the watchdog's ticker fires and it panics *)
  | step_watchdog_panic s now panicMsg w' :
      crashed s = None → tasks s Watchdog = Started →
      watchdogTick (world s) (store s) now = Some (panicMsg, w') →
      step s (mkSys w' (store s) (pc s) (tasks s) (executed s) (closedChans s)
                    (nextChan s) (Some panicMsg)).

(** The states a World made by [New] can be in. *)
Definition reachable (w : World.t) (st : Store) (s : Sys) : Prop :=
  rtc step (initSys w st) s.

(** What line 104 has added to the counter once [New] stands at [pc]. *)
Definition added (pc : NewPc) : Z :=
  match pc with
  | AtAdd => 0
  | _ => 4
  end.

(** The counter is what was added less one for every task that has
    exited, and the tasks started are those whose [go] statement has been
    executed. *)
Definition runningInv (s : Sys) : Prop :=
  World.running (world s) = added (pc s) - exitedCount (tasks s)
  ∧ ∀ t, tasks s t = NotStarted ↔ goDone (pc s) t = false.

(** The transactions of a state: queued, running or executed. *)
Definition allTxs (s : Sys) : list transaction :=
  chan_buf (World.queue (world s))
    ++ option_list (World.runningTx (world s))
    ++ executed s.


(** Completion channels are named in the order they are made; the
    channel [New] waits on belongs to a tick transaction only, which is
    queued, running or executed as long as there has been no panic; a
    channel is closed only for a transaction that has been executed; and
    [New] has returned only with a tick transaction executed. *)
Definition txInv (s : Sys) : Prop :=
  (∀ tx, tx ∈ allTxs s → (c tx < nextChan s)%nat)
  ∧ (∀ done, pc s = AtAwait done →
       (done < nextChan s)%nat
       ∧ ∀ tx, tx ∈ allTxs s → c tx = done → f tx = tick)
  ∧ (∀ ch, ch ∈ closedChans s → ∃ tx, tx ∈ executed s ∧ c tx = ch)
  ∧ (pc s = AtReturn → ∃ tx, tx ∈ executed s ∧ f tx = tick)
  ∧ (∀ done, pc s = AtAwait done → crashed s = None →
       ∃ tx, tx ∈ allTxs s ∧ c tx = done ∧ f tx = tick).

End Lifecycle.

(** ** Several worlds over one store *)

Section NewAll.
Context `{Collaborators}.

(** [New] called once for every configuration of the list, in order, each
    call with its own clock reading. *)
Fixpoint NewAll (confs : list (Config.t * Z)) (st : Store)
    : option (list World.t * Store) :=
  match confs with
  | [] => Some ([], st)
  | (conf, now) :: rest =>
      '(w, st) ← New conf st now;
      '(ws, st) ← NewAll rest st;
      Some (w :: ws, st)
  end.

End NewAll.

(** ** A concrete set of collaborators

    Loggers, generators and handlers are names; a dimension is its range; a
    random source is its two seeds. A provider is either backed by the
    settings object at a location, which it hands out on every call, or
    ([None], the no-op provider) makes a new settings object on every call. *)
Definition exampleCollaborators : Collaborators := {|
  Logger := string;
  Dimension := Z * Z;
  Provider := option loc;
  Generator := string;
  Handler := string;
  RandSource := Z * Z;
  EntityRegistry := list string;
  PortalDestinationFunc := unit;
  ScheduledTickQueue := Z;
  slog_Default := "slog.Default";
  Overworld := (-64, 319);
  Range := λ d, d;
  NopProvider := None;
  Provider_Settings := λ prov st,
    match prov with
    | Some p => (p, st)
    | None =>
        let p := fresh (dom st) in
        (p, <[p := mkSettings "World" 0 0]> st)
    end;
  NopGenerator := "NopGenerator";
  NopHandler := "NopHandler";
  rand_NewPCG := λ a b, (a, b);
  newScheduledTickQueue := λ tick, tick;
|}.

(** A configuration with every option unset. *)
Definition zeroConfig : @Config.t exampleCollaborators :=
  Config.mk exampleCollaborators None None None None None false 0 0 None [].

(** A configuration over the settings object at location 0, with saving
    and random ticking switched off. *)
Definition sharedConfig : @Config.t exampleCollaborators :=
  Config.mk exampleCollaborators (Some "log") (Some (0, 255)) None (Some (Some 0%nat))
    (Some "flat") false (-1) (-1) (Some (1, 2)) [].

(** A store with one settings object, referenced by no world yet. *)
Definition oneSettings : Store := {[ 0%nat := mkSettings "lobby" 100 0 ]}.

(** [n] transactions submitted one after the other by a session. *)
Definition pendingTxs (n : nat) : list transaction :=
  (λ i, mkTx (otherFunc i) ["session.handle at session.go:" +:+ pretty i] i)
    <$> seq 0 n.

(** The stack of a goroutine inside [runtime.Callers], called by
    [captureCallerInfo] on behalf of a submission made from [main.run]. *)
Definition exampleStack : list Frame :=
  [ mkFrame "runtime.Callers" "runtime/extern.go" 331;
    mkFrame "world.captureCallerInfo" "world/debug.go" 13;
    mkFrame "world.World.Exec" "world/world.go" 120;
    mkFrame "main.run" "main.go" 7 ].

Definition hangingTx : transaction :=
  mkTx (otherFunc 99) (captureCallerInfo exampleStack) 99%nat.

(** A World over [oneSettings] whose Executor has been running [hangingTx]
    since clock reading 5s, with [pending] waiting in its queue. *)
Definition stuckWorld (pending : list transaction) : @World.t exampleCollaborators :=
  World.mk exampleCollaborators 100 false (mkChan 128 pending) (1, 2) true
    sharedConfig (0, 255) 0%nat "NopHandler" 4 (Some hangingTx)
    (5 * time.Second).

(** ** Session packet handlers (server/session)

    Both handlers act on a session, on the player it controls and, through
    the session, on the other handlers. What they read and write directly
    is kept in records; the methods they call and that are declared
    elsewhere are calls with an effect on the whole state that is left
    open. A handler gives back the state, the calls it made, in order, and
    the error it returns; it gives nothing when its type assertion on the
    packet panics. *)

(** The packets the handlers take, with the fields they read. A
    [WindowID] is a byte, a loading screen id an optional uint32. *)
Inductive Packet :=
  | ContainerClose (WindowID : Z)
  | ServerBoundLoadingScreen (Type_ : Z) (LoadingScreenID : option Z)
  | OtherPacket (id : Z).

(** The zero value [packet.ContainerClose{}]. *)
Definition zeroContainerClose : Packet := ContainerClose 0.

(** The session fields the handlers touch: [openedWindowID] is an
    atomic.Uint32, the last two are atomic.Bool. *)
Record Session := mkSession {
  invOpened : bool;
  openedWindowID : Z;
  changingDimension : bool;
  requireResendDimension : bool;
}.

Record ServerBoundLoadingScreenHandler := mkLoadingScreenHandler {
  currentID : Z;
  expectedID : Z;
}.

Section Handlers.

(** The rest of the state (the player, the connection, the world) and the
    type of positions. *)
Variables (Rest Vec3 : Type).

Record HandlerState := mkHandlerState {
  sess : Session;
  loadingScreen : ServerBoundLoadingScreenHandler;
  rest : Rest;
}.

(** The methods the handlers call, with their arguments. *)
Inductive Call :=
  | MoveItemsToInventory
  | writePacket (pk : Packet)
  | closeCurrentContainer
  | LogDebug (msg : string) (window_id : Z)
  | changeDimension (dim : Z) (silent resend : bool)
  | Flush
  | ViewEntityState
  | ViewEntityTeleport (pos : Vec3).

(** What a call does to the state; the dimension id of the session's
    world ([world.DimensionID], an int); the player's position. *)
Variable effect : Call → HandlerState → HandlerState.
Variable dimensionID : HandlerState → Z.
Variable Position : HandlerState → Vec3.

(** [packet.LoadingScreenTypeEnd] *)
Variable LoadingScreenTypeEnd : Z.

Definition setInvOpened (e : HandlerState) (v : bool) : HandlerState :=
  mkHandlerState
    (mkSession v (openedWindowID (sess e)) (changingDimension (sess e))
               (requireResendDimension (sess e)))
    (loadingScreen e) (rest e).

Definition setChangingDimension (e : HandlerState) (v : bool) : HandlerState :=
  mkHandlerState
    (mkSession (invOpened (sess e)) (openedWindowID (sess e)) v
               (requireResendDimension (sess e)))
    (loadingScreen e) (rest e).

Definition setRequireResendDimension (e : HandlerState) (v : bool)
    : HandlerState :=
  mkHandlerState
    (mkSession (invOpened (sess e)) (openedWindowID (sess e))
               (changingDimension (sess e)) v)
    (loadingScreen e) (rest e).

Definition setExpectedID (e : HandlerState) (v : Z) : HandlerState :=
  mkHandlerState (sess e)
    (mkLoadingScreenHandler (currentID (loadingScreen e)) v) (rest e).

(** A handler's progress: the state and the calls made so far. *)
Definition call (cl : Call) (st : HandlerState * list Call)
    : HandlerState * list Call :=
  (effect cl st.1, st.2 ++ [cl]).

(** [ContainerCloseHandler.Handle] (handler_container_close.go). The
    cases of the [switch] are tried from the top; [byte(...)] keeps the low
    eight bits of the opened window's id. *)
Definition ContainerCloseHandler_Handle (p : Packet) (e : HandlerState)
    : option (HandlerState * list Call * option string) :=
  match p with
  | ContainerClose WindowID =>
      let st := call MoveItemsToInventory (e, []) in
      if WindowID =? 0 then
        let st := call (writePacket zeroContainerClose) st in
        Some (setInvOpened st.1 false, st.2, None)
      else if WindowID =? openedWindowID (sess st.1) mod 256 then
        let st := call closeCurrentContainer st in
        Some (st, None)
      else if WindowID =? 255 then
        Some (st, None)
      else
        let st :=
          call (LogDebug "unexpected close request for unopened container"
                         WindowID) st in
        Some (st, None)
  | _ => None
  end.

(** [fmt.Errorf("expected loading screen ID %d, got %d", expected, v)] *)
Definition loadingScreenError (expected v : Z) : string :=
  "expected loading screen ID " +:+ sprintf_d expected +:+ ", got "
    +:+ sprintf_d v.

(** [ServerBoundLoadingScreenHandler.Handle]. The compare-and-swap of
    [requireResendDimension] from true to false succeeds exactly when the
    flag is set; [int32(dim)] wraps the dimension id to 32 bits. *)
Definition ServerBoundLoadingScreenHandler_Handle (p : Packet)
    (e : HandlerState) : option (HandlerState * list Call * option string) :=
  match p with
  | ServerBoundLoadingScreen Type_ LoadingScreenID =>
      match LoadingScreenID with
      | None => Some (e, [], None)
      | Some v =>
          let expected := expectedID (loadingScreen e) in
          if expected =? 0 then Some (e, [], None)
          else if negb (v =? expected) then
            Some (e, [], Some (loadingScreenError expected v))
          else if Type_ =? LoadingScreenTypeEnd then
            let e := setChangingDimension e false in
            let e := setExpectedID e 0 in
            let st :=
              if requireResendDimension (sess e) then
                let e := setRequireResendDimension e false in
                let dim := dimensionID e in
                call (changeDimension (atomic.wrap32 dim) true true) (e, [])
              else (e, []) in
            let st := call Flush st in
            let st := call ViewEntityState st in
            let st := call (ViewEntityTeleport (Position st.1)) st in
            Some (st, None)
          else Some (e, [], None)
      end
  | _ => None
  end.

End Handlers.

Arguments MoveItemsToInventory {Vec3}.
Arguments writePacket {Vec3} _.
Arguments closeCurrentContainer {Vec3}.
Arguments LogDebug {Vec3} _ _.
Arguments changeDimension {Vec3} _ _ _.
Arguments Flush {Vec3}.
Arguments ViewEntityState {Vec3}.
Arguments ViewEntityTeleport {Vec3} _.
Arguments mkHandlerState {Rest} _ _ _.
Arguments sess {Rest} _.
Arguments loadingScreen {Rest} _.
Arguments rest {Rest} _.
Arguments ContainerCloseHandler_Handle {Rest Vec3} _ _ _.
Arguments ServerBoundLoadingScreenHandler_Handle {Rest Vec3} _ _ _ _ _ _.
Arguments setInvOpened {Rest} _ _.
Arguments setChangingDimension {Rest} _ _.
Arguments setRequireResendDimension {Rest} _ _.
Arguments setExpectedID {Rest} _ _.

(** A state whose rest counts the calls made; a call changes nothing
    else, except that [changeDimension] starts a new loading screen, as the
    session does: it sets [changingDimension] and expects the next id. *)
Definition countingEffect (cl : @Call (Z * Z * Z)) (e : HandlerState nat)
    : HandlerState nat :=
  match cl with
  | changeDimension _ _ _ =>
      mkHandlerState
        (mkSession (invOpened (sess e)) (openedWindowID (sess e)) true
                   (requireResendDimension (sess e)))
        (mkLoadingScreenHandler (currentID (loadingScreen e) + 1)
                                (currentID (loadingScreen e) + 1))
        (S (rest e))
  | _ => mkHandlerState (sess e) (loadingScreen e) (S (rest e))
  end.

(** A session that waits for loading screen 7 with no change of
    dimension to be sent again. *)
Definition waitingState : HandlerState nat :=
  mkHandlerState (mkSession false 0 true false) (mkLoadingScreenHandler 7 7)
                 0%nat.

(** The loading screen handler over [countingEffect], in the dimension
    with id 1, the player standing at (1, 2, 3); 2 is the type End. *)
Definition exampleLoadingHandle :=
  ServerBoundLoadingScreenHandler_Handle countingEffect
    (λ _, 1) (λ _, (1, 2, 3)) 2.

(** A session with container window 257 open, in the middle of a
    dimension change that waits for loading screen 7. *)
Definition exampleState : HandlerState nat :=
  mkHandlerState (mkSession true 257 true true) (mkLoadingScreenHandler 7 7)
                 0%nat.

(** Modelled from the spec: the code that ticks blocks at random is not
    under src. Random ticking is disabled in a World whose effective
    [RandomTickSpeed] is zero or negative. *)
Definition randomTickingDisabled `{Collaborators} (w : World.t) : Prop :=
  Config.RandomTickSpeed (World.conf w) ≤ 0.

(** * Theorems *)

(** Extending a run by one step at its start. *)
Ltac run_step rule := eapply rtc_l; [rule; try done | simpl].

(** ** Defaults *)

Section DefaultsFacts.
Context `{Collaborators}.

(** The defaults, field by field. *)
Lemma New_defaults_eq conf now :
  New_defaults conf now =
  Config.mk _
    (Some (default slog_Default (Config.Log conf)))
    (Some (default Overworld (Config.Dim conf)))
    (Config.PortalDestination conf)
    (Some (default NopProvider (Config.Provider conf)))
    (Some (default NopGenerator (Config.Generator conf)))
    (Config.ReadOnly conf)
    (if Config.SaveInterval conf =? 0 then time.Minute * 10
     else Config.SaveInterval conf)
    (if Config.RandomTickSpeed conf =? 0 then 3
     else Config.RandomTickSpeed conf)
    (Some (default (rand_NewPCG (now mod 2 ^ 64) (now mod 2 ^ 64))
                   (Config.RandSource conf)))
    (Config.Entities conf).
Proof.
  destruct conf as [lg dm pd pv gn ro si rts rs en].
  unfold New_defaults. cbn [Config.Log Config.Dim Config.Provider
    Config.Generator Config.SaveInterval Config.RandomTickSpeed
    Config.RandSource Config.PortalDestination Config.ReadOnly
    Config.Entities].
  destruct lg, dm, pv, gn, rs; cbn; destruct (si =? 0); cbn;
    destruct (rts =? 0); reflexivity.
Qed.

Lemma New_defaults_Log conf now :
  Config.Log (New_defaults conf now)
  = Some (default slog_Default (Config.Log conf)).
Proof. by rewrite New_defaults_eq. Qed.

Lemma New_defaults_Dim conf now :
  Config.Dim (New_defaults conf now)
  = Some (default Overworld (Config.Dim conf)).
Proof. by rewrite New_defaults_eq. Qed.

Lemma New_defaults_Provider conf now :
  Config.Provider (New_defaults conf now)
  = Some (default NopProvider (Config.Provider conf)).
Proof. by rewrite New_defaults_eq. Qed.

Lemma New_defaults_Generator conf now :
  Config.Generator (New_defaults conf now)
  = Some (default NopGenerator (Config.Generator conf)).
Proof. by rewrite New_defaults_eq. Qed.

Lemma New_defaults_RandSource conf now :
  Config.RandSource (New_defaults conf now)
  = Some (default (rand_NewPCG (now mod 2 ^ 64) (now mod 2 ^ 64))
                  (Config.RandSource conf)).
Proof. by rewrite New_defaults_eq. Qed.

Lemma New_defaults_SaveInterval conf now :
  Config.SaveInterval (New_defaults conf now)
  = if Config.SaveInterval conf =? 0 then time.Minute * 10
    else Config.SaveInterval conf.
Proof. by rewrite New_defaults_eq. Qed.

Lemma New_defaults_RandomTickSpeed conf now :
  Config.RandomTickSpeed (New_defaults conf now)
  = if Config.RandomTickSpeed conf =? 0 then 3
    else Config.RandomTickSpeed conf.
Proof. by rewrite New_defaults_eq. Qed.

(** What [New] returns, spelled out: it fails only when the provider
    hands out a pointer to no settings object. *)
Lemma New_unfold conf st now :
  New conf st now =
  let prov := default NopProvider (Config.Provider conf) in
  let p := (Provider_Settings prov st).1 in
  let st1 := (Provider_Settings prov st).2 in
  s ← st1 !! p;
  let n := atomic.Add (ref s) 1 in
  Some (World.mk _
          (newScheduledTickQueue (CurrentTick s)) false (make_chan 128)
          (default (rand_NewPCG (now mod 2 ^ 64) (now mod 2 ^ 64))
                   (Config.RandSource conf))
          (n =? 1) (New_defaults conf now)
          (Range (default Overworld (Config.Dim conf)))
          p NopHandler 0 None 0,
        <[p := mkSettings (Name s) (CurrentTick s) n]> st1).
Proof.
  unfold New.
  rewrite New_defaults_Provider, New_defaults_RandSource, New_defaults_Dim.
  simpl. destruct (Provider_Settings _ st) as [p st1]. simpl.
  destruct (st1 !! p); done.
Qed.

Lemma New_conf conf st now w st' :
  New conf st now = Some (w, st') → World.conf w = New_defaults conf now.
Proof.
  rewrite New_unfold. cbv zeta. intros Hnew.
  destruct (_ !! _) as [s|]; simplify_eq/=. done.
Qed.

(** [New] returns a World whenever the provider's settings exist. *)
Lemma New_total conf st now s :
  let prov := default NopProvider (Config.Provider conf) in
  (Provider_Settings prov st).2 !! (Provider_Settings prov st).1 = Some s →
  is_Some (New conf st now).
Proof. intros prov Hs. rewrite New_unfold. cbv zeta. fold prov. rewrite Hs. eauto. Qed.

End DefaultsFacts.

(** ** Channels *)

Section ChanFacts.
Context {A : Type}.
Implicit Types (ch : Chan A) (xs : list A).

Lemma send_Some ch x q :
  send ch x = Some q ↔
  (length (chan_buf ch) < chan_cap ch)%nat
  ∧ q = mkChan (chan_cap ch) (chan_buf ch ++ [x]).
Proof.
  unfold send. case_decide as Hlt; split.
  - intros Hq. injection Hq as <-. done.
  - intros [_ Hq]. by rewrite Hq.
  - done.
  - intros [Hlt' _]. done.
Qed.

Lemma sendAll_Some ch xs q :
  sendAll ch xs = Some q ↔
  (xs = [] ∨ length (chan_buf ch) + length xs ≤ chan_cap ch)%nat
  ∧ q = mkChan (chan_cap ch) (chan_buf ch ++ xs).
Proof.
  revert ch. induction xs as [|x xs IH]; intros ch; simpl.
  - rewrite app_nil_r. destruct ch as [cap buf]; simpl. split.
    + intros Hq. injection Hq as <-. split; [by left | done].
    + intros [_ Hq]. by rewrite Hq.
  - destruct (send ch x) as [ch'|] eqn:Hs; simpl.
    + apply send_Some in Hs as [Hlt ->]. rewrite IH. simpl.
      rewrite length_app, <- app_assoc. simpl. split.
      * intros [Hfit Hq]. split; [right | done].
        destruct Hfit as [Hnil | Hfit]; [rewrite Hnil |]; simpl in *; lia.
      * intros [[Hnil | Hfit] Hq]; [done|]. split; [right; lia | done].
    + split; [done|]. intros [[Hnil | Hle] _]; [done|].
      unfold send in Hs. case_decide; [done|]. lia.
Qed.

Lemma recvN_app cap xs rest :
  recvN (length xs) (mkChan cap (xs ++ rest)) = (xs, mkChan cap rest).
Proof.
  induction xs as [|x xs IH]; simpl; [done|].
  unfold recv. simpl. by rewrite IH.
Qed.

End ChanFacts.

(** ** What New leaves in the World's configuration *)

(** C3, as the code has it: a [RandomTickSpeed] of zero is replaced by the
    default of 3, so random ticking is not disabled in the World made; a
    negative [RandomTickSpeed] is kept as it is, and random ticking is
    disabled. *)
Theorem New_RandomTickSpeed `{Collaborators} conf st now w st' :
  New conf st now = Some (w, st') →
  (Config.RandomTickSpeed conf = 0 →
     Config.RandomTickSpeed (World.conf w) = 3 ∧ ¬ randomTickingDisabled w)
  ∧ (Config.RandomTickSpeed conf < 0 →
     Config.RandomTickSpeed (World.conf w) = Config.RandomTickSpeed conf
     ∧ randomTickingDisabled w).
Proof.
  intros Hnew. unfold randomTickingDisabled.
  rewrite (New_conf _ _ _ _ _ Hnew), New_defaults_RandomTickSpeed.
  split; intros Hspeed.
  - rewrite Hspeed. simpl. lia.
  - destruct (Z.eqb_spec (Config.RandomTickSpeed conf) 0); lia.
Qed.

Lemma New_RandomTickSpeed_witness :
  ∃ w st', New sharedConfig oneSettings 7 = Some (w, st')
    ∧ Config.RandomTickSpeed (World.conf w) = -1
    ∧ randomTickingDisabled w.
Proof.
  destruct (New sharedConfig oneSettings 7) as [[w st']|] eqn:Hnew;
    [| vm_compute in Hnew; discriminate].
  exists w, st'. split; [done|].
  apply (New_RandomTickSpeed sharedConfig oneSettings 7 w st' Hnew).
  vm_compute. done.
Defined.

(** C3 as claimed fails: the configuration with every option unset has a
    [RandomTickSpeed] of zero, and in the World made from it the speed is 3
    and random ticking is not disabled. *)
Lemma New_RandomTickSpeed_zero_counterexample :
  Config.RandomTickSpeed zeroConfig ≤ 0
  ∧ ∃ w st', New zeroConfig ∅ 0 = Some (w, st')
      ∧ Config.RandomTickSpeed (World.conf w) = 3
      ∧ ¬ randomTickingDisabled w.
Proof.
  split; [vm_compute; discriminate|].
  destruct (New zeroConfig ∅ 0) as [[w st']|] eqn:Hnew;
    [| vm_compute in Hnew; discriminate].
  exists w, st'. split; [done|].
  apply New_conf in Hnew. unfold randomTickingDisabled. rewrite Hnew.
  vm_compute. split; [done | intros Hle; by apply Hle].
Qed.

(** C7: a [SaveInterval] of zero becomes ten minutes in the World made by
    [New]; a negative [SaveInterval] is left as it is. *)
Theorem New_SaveInterval `{Collaborators} conf st now w st' :
  New conf st now = Some (w, st') →
  (Config.SaveInterval conf = 0 →
     Config.SaveInterval (World.conf w) = 10 * time.Minute
     ∧ Config.SaveInterval (World.conf w) = 600000000000)
  ∧ (Config.SaveInterval conf < 0 →
     Config.SaveInterval (World.conf w) = Config.SaveInterval conf).
Proof.
  intros Hnew.
  rewrite (New_conf _ _ _ _ _ Hnew), New_defaults_SaveInterval.
  split; intros Hint.
  - rewrite Hint. done.
  - destruct (Z.eqb_spec (Config.SaveInterval conf) 0); [lia | done].
Qed.

Lemma New_SaveInterval_witness :
  ∃ w st', New zeroConfig ∅ 0 = Some (w, st')
    ∧ Config.SaveInterval (World.conf w) = 600000000000.
Proof.
  destruct (New zeroConfig ∅ 0) as [[w st']|] eqn:Hnew;
    [| vm_compute in Hnew; discriminate].
  exists w, st'. split; [done|].
  apply (New_SaveInterval zeroConfig ∅ 0 w st' Hnew). reflexivity.
Defined.

(** C6: a nil Provider, Generator, Dimension or Logger is replaced in the
    World made by [New] by the no-op provider, the no-op generator, the
    overworld and the default logger; none of the four is nil afterwards. *)
Theorem New_nil_collaborators `{Collaborators} conf st now w st' :
  New conf st now = Some (w, st') →
  (Config.Provider conf = None →
     Config.Provider (World.conf w) = Some NopProvider)
  ∧ (Config.Generator conf = None →
     Config.Generator (World.conf w) = Some NopGenerator)
  ∧ (Config.Dim conf = None →
     Config.Dim (World.conf w) = Some Overworld ∧ World.ra w = Range Overworld)
  ∧ (Config.Log conf = None →
     Config.Log (World.conf w) = Some slog_Default)
  ∧ is_Some (Config.Provider (World.conf w))
  ∧ is_Some (Config.Generator (World.conf w))
  ∧ is_Some (Config.Dim (World.conf w))
  ∧ is_Some (Config.Log (World.conf w)).
Proof.
  intros Hnew. pose proof (New_conf _ _ _ _ _ Hnew) as Hconf.
  rewrite Hconf, New_defaults_Provider, New_defaults_Generator,
    New_defaults_Dim, New_defaults_Log.
  assert (Hra : World.ra w = Range (default Overworld (Config.Dim conf))).
  { revert Hnew. rewrite New_unfold. cbv zeta.
    destruct (_ !! _) as [s|]; [|done]. simpl. intros Hnew.
    injection Hnew as <- _. done. }
  split; [intros Hnil; by rewrite Hnil|].
  split; [intros Hnil; by rewrite Hnil|].
  split; [intros Hnil; by rewrite Hra, Hnil|].
  split; [intros Hnil; by rewrite Hnil|].
  repeat split; by eexists.
Qed.

Lemma New_nil_collaborators_witness :
  ∃ w st', New zeroConfig ∅ 0 = Some (w, st')
    ∧ Config.Provider (World.conf w) = Some None
    ∧ Config.Generator (World.conf w) = Some "NopGenerator"
    ∧ Config.Dim (World.conf w) = Some (-64, 319)
    ∧ Config.Log (World.conf w) = Some "slog.Default".
Proof.
  destruct (New zeroConfig ∅ 0) as [[w st']|] eqn:Hnew;
    [| vm_compute in Hnew; discriminate].
  exists w, st'. split; [done|].
  destruct (New_nil_collaborators zeroConfig ∅ 0 w st' Hnew)
    as (Hp & Hg & Hd & Hl & _).
  split; [by apply Hp|]. split; [by apply Hg|].
  split; [by apply Hd | by apply Hl].
Defined.

(** C5: the transaction queue of a World made by [New] is an empty channel
    of capacity 128. Any 128 or fewer transactions can be sent to it without
    a receive in between, a 129th send blocks, and what was sent is received
    in the order it was sent. *)
Theorem New_queue `{Collaborators} conf st now w st' :
  New conf st now = Some (w, st') →
  World.queue w = make_chan 128
  ∧ chan_cap (World.queue w) = 128%nat
  ∧ (∀ txs, is_Some (sendAll (World.queue w) txs) ↔ (length txs ≤ 128)%nat)
  ∧ (∀ txs q tx, sendAll (World.queue w) txs = Some q →
       length txs = 128%nat → send q tx = None)
  ∧ (∀ txs q, sendAll (World.queue w) txs = Some q →
       recvN (length txs) q = (txs, World.queue w)).
Proof.
  rewrite New_unfold. cbv zeta. intros Hnew.
  destruct (_ !! _) as [s|]; [|done]. simpl in Hnew.
  injection Hnew as <- _. simpl.
  split; [done|]. split; [done|]. split; [|split].
  - intros txs. split.
    + intros [q Hq]. apply sendAll_Some in Hq as [[-> | Hfit] _]; simpl in *; lia.
    + intros Hlen. eexists. apply sendAll_Some. split; [|done].
      right. simpl. lia.
  - intros txs q tx Hq Hlen. apply sendAll_Some in Hq as [_ ->].
    unfold send. simpl. rewrite Hlen. done.
  - intros txs q Hq. apply sendAll_Some in Hq as [_ ->]. simpl.
    rewrite <- (app_nil_r txs) at 2. apply recvN_app.
Qed.

Lemma New_queue_witness :
  ∃ w st', New zeroConfig ∅ 0 = Some (w, st')
    ∧ chan_cap (World.queue w) = 128%nat.
Proof.
  destruct (New zeroConfig ∅ 0) as [[w st']|] eqn:Hnew;
    [| vm_compute in Hnew; discriminate].
  exists w, st'. split; [done|].
  apply (New_queue zeroConfig ∅ 0 w st' Hnew).
Defined.

(** ** The shared reference count *)

Lemma wrap32_small z : atomic.int32_range z → atomic.wrap32 z = z.
Proof.
  unfold atomic.int32_range, atomic.wrap32. intros Hz.
  rewrite Z.mod_small; lia.
Qed.

(** An increment returns 1 exactly when the counter held 0. *)
Lemma Add_one_iff v :
  atomic.int32_range v → atomic.Add v 1 = 1 ↔ v = 0.
Proof.
  unfold atomic.Add. intros Hv. split; [|intros ->; done].
  destruct (decide (v = 2 ^ 31 - 1)) as [-> | Hne]; [done|].
  rewrite wrap32_small; unfold atomic.int32_range in *; lia.
Qed.

Section RefCount.
Context `{Collaborators}.

(** One call of [New] over a settings object with reference count
    [ref s], handed out by a provider that leaves the store alone. *)
Lemma New_shared conf now st p s prov :
  Config.Provider conf = Some prov →
  Provider_Settings prov st = (p, st) →
  st !! p = Some s →
  ∃ w, New conf st now
       = Some (w, <[p := mkSettings (Name s) (CurrentTick s)
                                    (atomic.Add (ref s) 1)]> st)
     ∧ World.set w = p
     ∧ World.advance w = bool_decide (atomic.Add (ref s) 1 = 1).
Proof.
  intros Hprov Hset Hs. rewrite New_unfold. cbv zeta.
  rewrite Hprov. simpl. rewrite Hset. simpl. rewrite Hs. simpl.
  eexists. split; [done|]. simpl. split; [done|].
  case_bool_decide as Hn; [by apply Z.eqb_eq | by apply Z.eqb_neq].
Qed.

End RefCount.

(** C8: worlds made one after the other over one settings object whose
    reference count starts at [ref s]. Each one is the advancing instance
    exactly when its increment of the count returns 1, which is exactly
    when it is the first and the count was 0; every later one is passive.
    (The count is a signed 32-bit counter; fewer than 2^31 references are
    taken.) *)
Theorem NewAll_advance `{Collaborators} confs st p s :
  st !! p = Some s →
  0 ≤ ref s →
  ref s + Z.of_nat (length confs) < 2 ^ 31 →
  (∀ conf now, (conf, now) ∈ confs →
     ∃ prov, Config.Provider conf = Some prov
       ∧ ∀ st, Provider_Settings prov st = (p, st)) →
  ∃ ws st',
    NewAll confs st = Some (ws, st')
    ∧ length ws = length confs
    ∧ ref <$> st' !! p = Some (ref s + Z.of_nat (length confs))
    ∧ ∀ i w, ws !! i = Some w →
        World.set w = p
        ∧ World.advance w
          = bool_decide (atomic.Add (ref s + Z.of_nat i) 1 = 1)
        ∧ (World.advance w = true ↔ ref s = 0 ∧ i = 0%nat).
Proof.
  revert st s. induction confs as [|[conf now] confs IH];
    intros st s Hs Hpos Hbound Hprov.
  - exists [], st. simpl. rewrite Hs. simpl. rewrite Z.add_0_r.
    repeat split; try done. all: intros i w Hlookup; done.
  - destruct (Hprov conf now) as (prov & Hp & Hset); [left|].
    simpl in Hbound.
    destruct (New_shared conf now st p s prov Hp (Hset st) Hs)
      as (w & Hnew & Hwset & Hwadv).
    assert (Hrange : atomic.int32_range (ref s))
      by (unfold atomic.int32_range; lia).
    assert (Hadd : atomic.Add (ref s) 1 = ref s + 1).
    { unfold atomic.Add. apply wrap32_small. unfold atomic.int32_range. lia. }
    set (s1 := mkSettings (Name s) (CurrentTick s) (atomic.Add (ref s) 1)) in *.
    destruct (IH (<[p := s1]> st) s1) as (ws & st' & Hall & Hlen & Href & Hws).
    { apply lookup_insert_eq. }
    { simpl. lia. }
    { simpl. lia. }
    { intros conf' now' Hin. apply (Hprov conf' now'). by right. }
    exists (w :: ws), st'. simpl. rewrite Hnew. simpl. rewrite Hall. simpl.
    split; [done|]. split; [by rewrite Hlen|].
    split.
    { rewrite Href. simpl. f_equal. lia. }
    intros [|i] w' Hlookup; simpl in Hlookup.
    + injection Hlookup as <-. split; [done|].
      rewrite Z.add_0_r. split; [done|]. rewrite Hwadv.
      rewrite bool_decide_eq_true, Add_one_iff by done.
      split; [intros Hzero; done | intros [Hzero _]; done].
    + destruct (Hws i w' Hlookup) as (Hset' & Hadv' & Hiff).
      split; [done|]. simpl in Hadv'.
      replace (ref s + Z.of_nat (S i)) with (atomic.Add (ref s) 1 + Z.of_nat i)
        by lia.
      split; [done|]. rewrite Hiff. simpl. split; [lia | intros [_ ?]; done].
Qed.

Lemma NewAll_advance_witness :
  ∃ ws st',
    NewAll [(sharedConfig, 1); (sharedConfig, 2); (sharedConfig, 3)] oneSettings
    = Some (ws, st')
    ∧ World.advance <$> ws = [true; false; false]
    ∧ ref <$> st' !! 0%nat = Some 3.
Proof.
  destruct (NewAll_advance
              [(sharedConfig, 1); (sharedConfig, 2); (sharedConfig, 3)]
              oneSettings 0%nat (mkSettings "lobby" 100 0))
    as (ws & st' & Hall & Hlen & Href & Hws).
  - reflexivity.
  - simpl. lia.
  - simpl. lia.
  - intros conf now Hin. exists (Some 0%nat).
    assert (conf = sharedConfig) as ->.
    { repeat (apply elem_of_cons in Hin as [Heq | Hin];
              [by injection Heq |]).
      by apply elem_of_nil in Hin. }
    split; [reflexivity | done].
  - exists ws, st'. split; [done|]. split; [|done].
    destruct ws as [|w0 [|w1 [|w2 [|]]]]; try discriminate Hlen.
    destruct (Hws 0%nat w0 eq_refl) as (_ & Hadv0 & _).
    destruct (Hws 1%nat w1 eq_refl) as (_ & Hadv1 & _).
    destruct (Hws 2%nat w2 eq_refl) as (_ & Hadv2 & _).
    simpl. rewrite Hadv0, Hadv1, Hadv2. vm_compute. reflexivity.
Defined.

(** ** Strings *)

Lemma string_app_cons a s t : String a s +:+ t = String a (s +:+ t).
Proof. reflexivity. Qed.

Lemma string_app_nil_l s : "" +:+ s = s.
Proof. reflexivity. Qed.

Lemma string_app_assoc s t u : (s +:+ t) +:+ u = s +:+ (t +:+ u).
Proof.
  induction s as [|a s IH]; [done|].
  by rewrite !string_app_cons, IH.
Qed.

Lemma string_app_nil_r s : s +:+ "" = s.
Proof.
  induction s as [|a s IH]; [done|]. by rewrite string_app_cons, IH.
Qed.

Lemma Contains_refl s : Contains s s.
Proof. exists "", "". by rewrite string_app_nil_l, string_app_nil_r. Qed.

Lemma Contains_app_l s t sub : Contains s sub → Contains (s +:+ t) sub.
Proof.
  intros (pre & post & ->). exists pre, (post +:+ t).
  by rewrite !string_app_assoc.
Qed.

Lemma Contains_app_r s t sub : Contains t sub → Contains (s +:+ t) sub.
Proof.
  intros (pre & post & ->). exists (s +:+ pre), post.
  by rewrite !string_app_assoc.
Qed.

Lemma Contains_trans s t u : Contains s t → Contains t u → Contains s u.
Proof.
  intros (pre & post & ->) Htu.
  by apply Contains_app_r, Contains_app_l.
Qed.

Lemma isPrefix_spec p s : isPrefix p s = true ↔ ∃ post, s = p +:+ post.
Proof.
  revert s. induction p as [|a p IH]; intros s.
  - simpl. split; [intros _; by exists s | done].
  - destruct s as [|b s]; simpl.
    + split; [done | intros [post Hpost]; discriminate Hpost].
    + case_decide as Hab.
      * subst b. rewrite IH. split; intros [post Hpost]; exists post.
        -- by rewrite string_app_cons, Hpost.
        -- rewrite string_app_cons in Hpost. by injection Hpost.
      * split; [done|]. intros [post Hpost].
        rewrite string_app_cons in Hpost. injection Hpost as Heq _. congruence.
Qed.

Lemma containsb_spec s sub : containsb s sub = true ↔ Contains s sub.
Proof.
  induction s as [|a s IH]; simpl; rewrite orb_true_iff, isPrefix_spec.
  - split.
    + intros [[post Hpost] | Hfalse]; [|done]. exists "", post. done.
    + intros (pre & post & Hs). left. destruct pre; [|discriminate Hs].
      by exists post.
  - rewrite IH. split.
    + intros [[post Hpost] | (pre & post & Hs)].
      * exists "", post. done.
      * exists (String a pre), post. by rewrite string_app_cons, Hs.
    + intros (pre & post & Hs). destruct pre as [|b pre].
      * left. by exists post.
      * right. rewrite string_app_cons in Hs. injection Hs as _ Hs.
        by exists pre, post.
Qed.

(** ** Caller information *)

Lemma captureCallerInfo_length stack :
  (1 ≤ length (captureCallerInfo stack) ≤ 64)%nat.
Proof.
  unfold captureCallerInfo, Callers. cbv zeta.
  assert (Hlen : (length (take 64 (drop 2 stack)) ≤ 64)%nat)
    by (rewrite length_take; apply Nat.le_min_l).
  revert Hlen. destruct (take 64 (drop 2 stack)) as [|fr pc]; intros Hlen.
  - cbn [length]. lia.
  - rewrite length_fmap. cbn [length] in *. lia.
Qed.

Example captureCallerInfo_exampleStack :
  captureCallerInfo exampleStack
  = ["world.World.Exec at world/world.go:120"; "main.run at main.go:7"].
Proof. vm_compute. reflexivity. Qed.

Example captureCallerInfo_no_callers :
  captureCallerInfo (take 2 exampleStack) = ["No callers found"].
Proof. reflexivity. Qed.

(** ** The watchdog's report *)

Lemma appendTraces_app panicMsg info :
  appendTraces panicMsg info = panicMsg +:+ appendTraces "" info.
Proof.
  revert panicMsg. induction info as [|trace info IH]; intros panicMsg; simpl.
  - by rewrite string_app_nil_r.
  - rewrite IH, (IH ("" +:+ _)). by rewrite string_app_nil_l, string_app_assoc.
Qed.

Lemma appendTraces_Contains panicMsg info trace :
  trace ∈ info → Contains (appendTraces panicMsg info) (nl +:+ trace).
Proof.
  revert panicMsg. induction info as [|t info IH]; intros panicMsg Hin.
  - by apply elem_of_nil in Hin.
  - simpl. apply elem_of_cons in Hin as [-> | Hin]; [|by apply IH].
    rewrite appendTraces_app. apply Contains_app_l, Contains_app_r, Contains_refl.
Qed.

Lemma appendPending_app panicMsg no pendingTx :
  appendPending panicMsg no pendingTx
  = panicMsg +:+ appendPending "" no pendingTx.
Proof.
  unfold appendPending.
  rewrite appendTraces_app, (appendTraces_app (("" +:+ _) +:+ _)).
  by rewrite string_app_nil_l, !string_app_assoc.
Qed.

(** The loop empties the buffer, whatever its length; [no] counts every
    transaction it received. *)
Lemma drainPending_all buf no panicMsg :
  ∃ report,
    drainPending buf no panicMsg = ([], no + Z.of_nat (length buf), report).
Proof.
  revert no panicMsg. induction buf as [|pendingTx buf IH]; intros no panicMsg.
  - simpl. rewrite Z.add_0_r. by eexists.
  - cbn [drainPending length]. destruct (no + 1 >? 10).
    + destruct (IH (no + 1) (panicMsg +:+ (nl +:+ "..."))) as [report ->].
      exists report. do 2 f_equal. lia.
    + destruct (IH (no + 1) (appendPending panicMsg (no + 1) pendingTx))
        as [report ->].
      exists report. do 2 f_equal. lia.
Qed.

(** What was in the message stays in it. *)
Lemma drainPending_keeps buf no panicMsg sub :
  Contains panicMsg sub → Contains (drainPending buf no panicMsg).2 sub.
Proof.
  revert no panicMsg. induction buf as [|pendingTx buf IH];
    intros no panicMsg Hsub; [done|].
  cbn [drainPending]. destruct (no + 1 >? 10); apply IH.
  - by apply Contains_app_l.
  - rewrite appendPending_app. by apply Contains_app_l.
Qed.

(** The first ten transactions of the buffer are reported with their number
    and their caller information. *)
Lemma drainPending_reports buf no panicMsg i pendingTx :
  buf !! i = Some pendingTx →
  no + Z.of_nat i < 10 →
  let report := (drainPending buf no panicMsg).2 in
  Contains report ("TX NO " +:+ sprintf_d (no + Z.of_nat i + 1) +:+ ":")
  ∧ ∀ trace, trace ∈ CallerInfo pendingTx → Contains report (nl +:+ trace).
Proof.
  revert no panicMsg i. induction buf as [|tx buf IH];
    intros no panicMsg i Hi Hlt; [done|].
  cbn [drainPending]. destruct i as [|i]; simpl in Hi.
  - injection Hi as ->. rewrite Z.add_0_r in *.
    destruct (Z.gtb_spec (no + 1) 10) as [Hgt | _]; [lia|].
    split; [| intros trace Hin]; apply drainPending_keeps; unfold appendPending.
    + apply Contains_app_l. rewrite appendTraces_app.
      do 2 apply Contains_app_l. do 2 apply Contains_app_r. apply Contains_refl.
    + apply Contains_app_l. by apply appendTraces_Contains.
  - destruct (Z.gtb_spec (no + 1) 10) as [Hgt | _]; [lia|].
    replace (no + Z.of_nat (S i)) with (no + 1 + Z.of_nat i) by lia.
    apply IH; [done | lia].
Qed.

Lemma Since_gt_iff now at_ d :
  time.minDuration ≤ d < time.maxDuration →
  time.Since now at_ > d ↔ now - at_ > d.
Proof.
  unfold time.Since, time.Sub. intros Hd. cbv zeta.
  destruct (Z.gtb_spec (now - at_) time.maxDuration);
    [lia | destruct (Z.ltb_spec (now - at_) time.minDuration); lia].
Qed.

Section WatchdogFacts.
Context `{Collaborators}.

(** When the watchdog fires, and what with. *)
Lemma watchdogTick_Some w st now panicMsg w' :
  watchdogTick w st now = Some (panicMsg, w') ↔
  ∃ hanging,
    World.runningTx w = Some hanging
    ∧ now - World.runningTxAt w > 20 * time.Second
    ∧ panicMsg = (deadlockReport (World.Name w st) (World.queue w) hanging).1
    ∧ w' = World.setQueue w
             (deadlockReport (World.Name w st) (World.queue w) hanging).2.
Proof.
  unfold watchdogTick.
  destruct (World.runningTx w) as [hanging|]; [|split; [done | by intros (? & ? & _)]].
  pose proof (Since_gt_iff now (World.runningTxAt w) (20 * time.Second)) as Hgt.
  destruct (Z.gtb_spec (time.Since now (World.runningTxAt w)) (20 * time.Second))
    as [Hfire | Hquiet].
  - destruct (deadlockReport _ _ hanging) as [report q] eqn:Hrep. split.
    + intros Heq. injection Heq as <- <-. exists hanging. rewrite Hrep.
      split; [done|]. split; [|done]. apply Hgt; [done | lia].
    + intros (tx & Htx & _ & Hmsg & Hw). injection Htx as <-.
      rewrite Hrep in Hmsg, Hw. by rewrite Hmsg, Hw.
  - split; [done|]. intros (tx & Htx & Hlong & _). apply Hgt in Hlong; [lia | done].
Qed.

Lemma watchdogTick_is_Some w st now :
  is_Some (watchdogTick w st now) ↔
  is_Some (World.runningTx w)
  ∧ now - World.runningTxAt w > 20 * time.Second.
Proof.
  split.
  - intros [[panicMsg w'] Hfire].
    apply watchdogTick_Some in Hfire as (hanging & Htx & Hlong & _).
    split; [by eexists | done].
  - intros [[hanging Htx] Hlong]. eexists (_, _).
    apply watchdogTick_Some. exists hanging. done.
Qed.

(** The report leaves nothing in the queue. *)
Lemma deadlockReport_queue name q hanging :
  chan_buf (deadlockReport name q hanging).2 = [].
Proof.
  unfold deadlockReport. cbv zeta.
  match goal with
  | |- context [drainPending ?buf ?no ?panicMsg] =>
      destruct (drainPending_all buf no panicMsg) as [report ->]
  end.
  done.
Qed.

(** So does a firing of the watchdog that panics: nothing that was
    waiting is left in the queue, however many transactions there were. *)
Lemma watchdogTick_empties_queue w st now panicMsg w' :
  watchdogTick w st now = Some (panicMsg, w') →
  chan_buf (World.queue w') = [].
Proof.
  intros Hfire. apply watchdogTick_Some in Hfire as (hanging & _ & _ & _ & ->).
  apply deadlockReport_queue.
Qed.

End WatchdogFacts.

Section ReportFacts.
Context `{Collaborators}.

Lemma deadlockReport_contents name q hanging :
  let panicMsg := (deadlockReport name q hanging).1 in
  Contains panicMsg deadlockHeader
  ∧ Contains panicMsg ("WORLD NAME: " +:+ name)
  ∧ (∀ trace, trace ∈ CallerInfo hanging → Contains panicMsg (nl +:+ trace))
  ∧ (∀ i pendingTx,
       chan_buf q !! i = Some pendingTx → (i < 10)%nat →
       Contains panicMsg ("TX NO " +:+ sprintf_d (Z.of_nat i + 1) +:+ ":")
       ∧ ∀ trace, trace ∈ CallerInfo pendingTx →
           Contains panicMsg (nl +:+ trace)).
Proof.
  unfold deadlockReport. cbv zeta.
  match goal with
  | |- context [drainPending ?buf ?no ?msg] =>
      set (start := msg);
      pose proof (drainPending_keeps buf no start) as Hkeeps;
      pose proof (drainPending_reports buf no start) as Hreports;
      destruct (drainPending buf no start) as [[rest n] report]
  end.
  simpl in Hkeeps, Hreports |- *.
  assert (Hlift : ∀ sub, Contains report sub →
    Contains (appendTraces ((report +:+ nl +:+ nl +:+ "HANGING TRANSACTION:")
                            +:+ beginTrace) (CallerInfo hanging) +:+ endTrace)
             sub).
  { intros sub Hsub. apply Contains_app_l. rewrite appendTraces_app.
    by do 3 apply Contains_app_l. }
  split; [|split; [|split]].
  - apply Hlift, Hkeeps. unfold start. do 2 apply Contains_app_l.
    apply Contains_refl.
  - apply Hlift, Hkeeps. unfold start. apply Contains_app_l, Contains_app_r.
    rewrite !string_app_assoc. do 2 apply Contains_app_r. apply Contains_refl.
  - intros trace Hin. apply Contains_app_l. by apply appendTraces_Contains.
  - intros i pendingTx Hi Hlt.
    destruct (Hreports i pendingTx Hi) as [Hno Hinfo]; [lia|].
    split; [by apply Hlift | intros trace Hin; by apply Hlift, Hinfo].
Qed.

End ReportFacts.

(** ** Claims about the watchdog *)

(** C1, the code at a World with twelve transactions waiting while one
    hangs: the watchdog receives all twelve from the queue and leaves it
    empty, adding a line of three dots to the message for the eleventh and
    again for the twelfth. *)
Theorem watchdog_drains_whole_queue :
  ∃ panicMsg w',
    watchdogTick (stuckWorld (pendingTxs 12)) oneSettings (26 * time.Second)
    = Some (panicMsg, w')
    ∧ length (chan_buf (World.queue (stuckWorld (pendingTxs 12)))) = 12%nat
    ∧ chan_buf (World.queue w') = []
    ∧ (drainPending (pendingTxs 12) 0 "").1 = ([], 12)
    ∧ Contains panicMsg ("TX NO 10:" +:+ beginTrace)
    ∧ ¬ Contains panicMsg "TX NO 11:"
    ∧ Contains panicMsg (endTrace +:+ nl +:+ "..." +:+ nl +:+ "..." +:+ nl +:+ nl
                         +:+ "HANGING TRANSACTION:").
Proof.
  destruct (watchdogTick (stuckWorld (pendingTxs 12)) oneSettings
              (26 * time.Second)) as [[panicMsg w']|] eqn:Hfire;
    [| vm_compute in Hfire; discriminate].
  exists panicMsg, w'. split; [done|].
  vm_compute in Hfire. injection Hfire as <- <-.
  split; [reflexivity|]. split; [reflexivity|]. split; [vm_compute; reflexivity|].
  split_and!.
  - apply containsb_spec. vm_compute. reflexivity.
  - intros Hsub. apply containsb_spec in Hsub. vm_compute in Hsub.
    discriminate Hsub.
  - apply containsb_spec. vm_compute. reflexivity.
Qed.

(** C2, as the code has it: the message of the watchdog's panic contains
    the World's name, the caller information of the hanging transaction, the
    fixed sentence that it has been running for more than 20 seconds, and,
    for each of the first ten transactions waiting in the queue, its number
    and its caller information. The message is the same however long the
    transaction has been running beyond 20 seconds. *)
Theorem deadlock_message_contents `{Collaborators} w st now panicMsg w' :
  watchdogTick w st now = Some (panicMsg, w') →
  ∃ hanging,
    World.runningTx w = Some hanging
    ∧ Contains panicMsg ("WORLD NAME: " +:+ World.Name w st)
    ∧ (∀ trace, trace ∈ CallerInfo hanging → Contains panicMsg (nl +:+ trace))
    ∧ Contains panicMsg
        "The transaction has been running for more than 20 seconds."
    ∧ (∀ i pendingTx,
         chan_buf (World.queue w) !! i = Some pendingTx → (i < 10)%nat →
         Contains panicMsg ("TX NO " +:+ sprintf_d (Z.of_nat i + 1) +:+ ":")
         ∧ ∀ trace, trace ∈ CallerInfo pendingTx →
             Contains panicMsg (nl +:+ trace))
    ∧ (∀ now', now' - World.runningTxAt w > 20 * time.Second →
         watchdogTick w st now' = Some (panicMsg, w')).
Proof.
  intros Hfire.
  apply watchdogTick_Some in Hfire as (hanging & Htx & Hlong & -> & ->).
  destruct (deadlockReport_contents (World.Name w st) (World.queue w) hanging)
    as (Hhead & Hname & Hhang & Hpend).
  exists hanging. split; [done|]. split; [done|]. split; [done|].
  split; [| split; [done|]].
  - eapply Contains_trans; [exact Hhead|]. unfold deadlockHeader.
    exists "Deadlock detected in world transaction. ", "". reflexivity.
  - intros now' Hlong'. apply watchdogTick_Some. by exists hanging.
Qed.

Lemma deadlock_message_contents_witness :
  ∃ panicMsg w',
    watchdogTick (stuckWorld (pendingTxs 2)) oneSettings (26 * time.Second)
    = Some (panicMsg, w')
    ∧ Contains panicMsg "WORLD NAME: lobby"
    ∧ Contains panicMsg (nl +:+ "main.run at main.go:7")
    ∧ Contains panicMsg (nl +:+ "session.handle at session.go:1").
Proof.
  destruct (watchdogTick (stuckWorld (pendingTxs 2)) oneSettings
              (26 * time.Second)) as [[panicMsg w']|] eqn:Hfire;
    [| vm_compute in Hfire; discriminate].
  exists panicMsg, w'. split; [done|].
  destruct (deadlock_message_contents _ _ _ _ _ Hfire)
    as (hanging & Htx & Hname & Hhang & _ & Hpend & _).
  injection Htx as <-.
  split; [exact Hname|].
  split.
  { apply Hhang. change (CallerInfo hangingTx) with (captureCallerInfo exampleStack).
    rewrite captureCallerInfo_exampleStack, !elem_of_cons. auto. }
  destruct (Hpend 1%nat (mkTx (otherFunc 1) ["session.handle at session.go:1"] 1%nat))
    as [_ Hinfo]; [reflexivity | lia |].
  apply Hinfo. by left.
Defined.

(** C2 as claimed fails: for a transaction that has been running for 21
    seconds and for one that has been running for an hour the watchdog
    raises the same message, and "21" occurs nowhere in it. *)
Lemma deadlock_message_elapsed_counterexample :
  ∃ panicMsg w',
    watchdogTick (stuckWorld []) oneSettings (26 * time.Second)
    = Some (panicMsg, w')
    ∧ watchdogTick (stuckWorld []) oneSettings (3605 * time.Second)
      = Some (panicMsg, w')
    ∧ time.Since (26 * time.Second) (World.runningTxAt (stuckWorld []))
      = 21 * time.Second
    ∧ time.Since (3605 * time.Second) (World.runningTxAt (stuckWorld []))
      = 3600 * time.Second
    ∧ ¬ Contains panicMsg "21"
    ∧ ¬ Contains panicMsg "3600".
Proof.
  destruct (watchdogTick (stuckWorld []) oneSettings (26 * time.Second))
    as [[panicMsg w']|] eqn:Hfire; [| vm_compute in Hfire; discriminate].
  exists panicMsg, w'. split; [done|].
  vm_compute in Hfire. injection Hfire as <- <-.
  split; [vm_compute; reflexivity|]. split; [vm_compute; reflexivity|].
  split; [vm_compute; reflexivity|].
  split; intros Hsub; apply containsb_spec in Hsub; vm_compute in Hsub;
    discriminate Hsub.
Qed.

(** C4: run over any sequence of ticker firings and closing signals, the
    watchdog panics exactly when, at some firing that comes before any
    closing signal it observes, a transaction is recorded as running and
    has been running for more than 20 seconds; with no transaction recorded,
    or none running that long, it does not panic. *)
Theorem watchdog_panics_iff `{Collaborators} (evs : list WatchdogEvent) :
  (∃ panicMsg, watchdog evs = Panicked panicMsg) ↔
  (∃ pre w st now post hanging,
     evs = pre ++ TickerFired w st now :: post
     ∧ (ClosingObserved ∉ pre)
     ∧ World.runningTx w = Some hanging
     ∧ now - World.runningTxAt w > 20 * time.Second).
Proof.
  induction evs as [|ev evs IH].
  - split; [intros [panicMsg Hp]; done|].
    intros (pre & w & st & now & post & hanging & Hevs & _).
    by destruct pre.
  - destruct ev as [w st now|]; simpl.
    + destruct (watchdogTick w st now) as [[panicMsg w']|] eqn:Hfire.
      * split; [intros _ | intros _; by eexists].
        apply watchdogTick_Some in Hfire as (hanging & Htx & Hlong & _).
        exists [], w, st, now, evs, hanging.
        split; [done|]. split; [apply not_elem_of_nil | done].
      * rewrite IH. split.
        -- intros (pre & w1 & st1 & now1 & post & hanging & -> & Hpre & Htx & Hlong).
           exists (TickerFired w st now :: pre), w1, st1, now1, post, hanging.
           split; [done|]. split; [|done].
           apply not_elem_of_cons. split; [done | done].
        -- intros (pre & w1 & st1 & now1 & post & hanging & Hevs & Hpre & Htx & Hlong).
           destruct pre as [|ev pre]; simpl in Hevs.
           ++ injection Hevs as Hw Hst Hnow Hpost. subst w1 st1 now1 post.
              assert (is_Some (watchdogTick w st now)) as [? Hsome].
              { apply watchdogTick_is_Some. split; [by eexists | done]. }
              congruence.
           ++ injection Hevs as Hev Hevs. subst ev evs.
              exists pre, w1, st1, now1, post, hanging.
              apply not_elem_of_cons in Hpre as [_ Hpre]. done.
    + split; [intros [panicMsg Hp]; done|].
      intros (pre & w & st & now & post & hanging & Hevs & Hpre & _).
      destruct pre as [|ev pre]; simpl in Hevs; [done|].
      injection Hevs as <- _. exfalso. apply Hpre. by left.
Qed.

(** ** Background tasks and the running-task counter *)

Lemma setTask_eq ts t v : setTask ts t v t = v.
Proof. unfold setTask. by rewrite decide_True. Qed.

Lemma setTask_ne ts t v t' : t' ≠ t → setTask ts t v t' = ts t'.
Proof. unfold setTask. intros Hne. by rewrite decide_False. Qed.

Lemma exitedCount_set ts t v :
  exitedCount (setTask ts t v) = exitedCount ts - exited (ts t) + exited v.
Proof.
  unfold exitedCount, allTasks. simpl.
  destruct t; rewrite setTask_eq, !setTask_ne by done; lia.
Qed.

Lemma exitedCount_bounds ts : 0 ≤ exitedCount ts ≤ 4.
Proof.
  unfold exitedCount, allTasks. simpl.
  destruct (ts TickDriver), (ts AutoSaveWorker), (ts Executor), (ts Watchdog);
    simpl; lia.
Qed.

Lemma exitedCount_all ts : exitedCount ts = 4 → ∀ t, ts t = Exited.
Proof.
  unfold exitedCount, allTasks. simpl. intros Hcount t.
  destruct (ts TickDriver) eqn:?, (ts AutoSaveWorker) eqn:?,
    (ts Executor) eqn:?, (ts Watchdog) eqn:?; simpl in Hcount; try lia.
  by destruct t.
Qed.

Lemma exitedCount_none ts : (∀ t, ts t = NotStarted) → exitedCount ts = 0.
Proof.
  intros Hts. unfold exitedCount, allTasks. simpl. by rewrite !Hts.
Qed.

Section LifecycleFacts.
Context `{Collaborators}.

(** The World as [New] has built it by line 102. *)
Lemma New_fresh conf st0 now w st :
  New conf st0 now = Some (w, st) →
  World.running w = 0
  ∧ World.runningTx w = None
  ∧ World.closing w = false
  ∧ World.queue w = make_chan 128.
Proof.
  rewrite New_unfold. cbv zeta. intros Hnew.
  destruct (_ !! _) as [s|]; [|done]. simpl in Hnew.
  injection Hnew as <- _. done.
Qed.

Lemma watchdogTick_running w st now panicMsg w' :
  watchdogTick w st now = Some (panicMsg, w') →
  World.running w' = World.running w.
Proof.
  intros Hfire. apply watchdogTick_Some in Hfire as (? & _ & _ & _ & ->).
  done.
Qed.

Lemma runningInv_init w st : World.running w = 0 → runningInv (initSys w st).
Proof.
  intros Hrun. split; simpl; [by rewrite exitedCount_none | done].
Qed.

Lemma runningInv_step s s' : step s s' → runningInv s → runningInv s'.
Proof.
  intros Hstep [Hcount Hstarted].
  destruct Hstep as
    [ s Hc Hpc | s t Hc Hpc | s info q Hc Hpc Hsend | s done Hc Hpc Hdone
    | s fn info q Hc Hsend | s tx q now Hc Hex Hidle Hrecv | s tx Hc Htx
    | s Hc Hopen | s t Hc Ht Hclosing Hidle | s now panicMsg w' Hc Hwd Hfire ];
    unfold runningInv; simpl.
  - (* line 104 *)
    rewrite Hpc in Hcount, Hstarted. simpl in Hcount, Hstarted.
    split; [lia | exact Hstarted].
  - (* a go statement *)
    rewrite Hpc in Hcount, Hstarted.
    assert (Hnot : tasks s t = NotStarted) by (apply Hstarted; by destruct t).
    split.
    + rewrite exitedCount_set, Hnot. simpl in *. destruct t; simpl; lia.
    + intros t'. destruct (decide (t' = t)) as [-> | Hne].
      * rewrite setTask_eq. by destruct t.
      * rewrite setTask_ne by done. rewrite Hstarted.
        destruct t, t'; simpl; done.
  - (* w.Exec *)
    rewrite Hpc in Hcount, Hstarted. done.
  - (* the receive *)
    rewrite Hpc in Hcount, Hstarted. done.
  - done.
  - done.
  - done.
  - done.
  - (* a task exits *)
    split.
    + rewrite exitedCount_set, Ht. simpl. lia.
    + intros t'. destruct (decide (t' = t)) as [-> | Hne].
      * rewrite setTask_eq. split; [done|]. intros Hgo.
        apply Hstarted in Hgo. congruence.
      * by rewrite setTask_ne.
  - (* the watchdog panics *)
    by rewrite (watchdogTick_running _ _ _ _ _ Hfire).
Qed.

Lemma runningInv_reachable w st s :
  World.running w = 0 → reachable w st s → runningInv s.
Proof.
  intros Hrun. unfold reachable. revert s. apply rtc_ind_r.
  - by apply runningInv_init.
  - intros s s' _ Hstep Hinv. by eapply runningInv_step.
Qed.

End LifecycleFacts.

(** C9: in every state a World made by [New] can reach, the counter of
    running tasks is 0 with no task started as long as line 104 has not run;
    from then on it is 4 less the number of tasks that have exited. Once
    [New] is past its [go] statements all four tasks have been started. A
    task exits only with the closing signal given, and its exit takes the
    counter down by exactly 1. So the counter is back at zero only when all
    four tasks have exited. *)
Theorem New_running_tasks `{Collaborators} conf st0 now w st s :
  New conf st0 now = Some (w, st) →
  reachable w st s →
  (pc s = AtAdd →
     World.running (world s) = 0 ∧ ∀ t, tasks s t = NotStarted)
  ∧ (∀ s', step s s' → pc s = AtAdd → pc s' ≠ AtAdd →
       World.running (world s') = 4 ∧ ∀ t, tasks s' t = NotStarted)
  ∧ (pc s ≠ AtAdd → World.running (world s) = 4 - exitedCount (tasks s))
  ∧ (goDone (pc s) Watchdog = true → ∀ t, tasks s t ≠ NotStarted)
  ∧ (∀ s' t, step s s' → tasks s t ≠ Exited → tasks s' t = Exited →
       World.closing (world s) = true
       ∧ World.running (world s') = World.running (world s) - 1)
  ∧ (pc s ≠ AtAdd → World.running (world s) = 0 → ∀ t, tasks s t = Exited).
Proof.
  intros Hnew Hreach.
  destruct (New_fresh _ _ _ _ _ Hnew) as (Hrun & _).
  pose proof (runningInv_reachable w st s Hrun Hreach) as [Hcount Hstarted].
  assert (Hpast : pc s ≠ AtAdd → added (pc s) = 4) by (by destruct (pc s)).
  split; [|split; [|split; [|split; [|split]]]].
  - intros Hpc. rewrite Hpc in Hcount, Hstarted. simpl in *.
    assert (Hnone : ∀ t, tasks s t = NotStarted) by (intros t; by apply Hstarted).
    split; [|done]. rewrite Hcount, exitedCount_none by done. done.
  - intros s' Hstep Hpc Hleft.
    assert (Hnone : ∀ t, tasks s t = NotStarted).
    { intros t. apply Hstarted. by rewrite Hpc. }
    assert (Hzero : World.running (world s) = 0).
    { rewrite Hcount, Hpc, exitedCount_none by done. done. }
    inversion Hstep; subst; simpl in *; try congruence.
    split; [lia | done].
  - intros Hpc. rewrite Hcount, Hpast by done. done.
  - intros Hgo t Hnot. apply Hstarted in Hnot.
    destruct (pc s) as [|[]| | |], t; simpl in *; congruence.
  - intros s' t Hstep Hbefore Hafter.
    inversion Hstep; subst; simpl in *; try congruence.
    + destruct (decide (t = t0)) as [-> | Hne].
      * rewrite setTask_eq in Hafter. done.
      * rewrite setTask_ne in Hafter by done. done.
    + destruct (decide (t = t0)) as [-> | Hne]; [done|].
      rewrite setTask_ne in Hafter by done. done.
  - intros Hpc Hzero. apply exitedCount_all. rewrite Hpast in Hcount by done. lia.
Qed.

Lemma New_running_tasks_witness :
  ∃ w st s,
    New zeroConfig ∅ 0 = Some (w, st)
    ∧ reachable w st s
    ∧ World.running (world s) = 0
    ∧ ∀ t, tasks s t = Exited.
Proof.
  destruct (New zeroConfig ∅ 0) as [[w st]|] eqn:Hnew;
    [| vm_compute in Hnew; discriminate].
  destruct (New_fresh _ _ _ _ _ Hnew) as (Hrun & Htx & Hopen & Hq).
  assert (∃ s, reachable w st s ∧ World.running (world s) = 0
               ∧ pc s = AtExec) as (s & Hreach & Hzero & Hpc).
  { eexists. split; [|split]; [unfold reachable | |].
    run_step ltac:(apply step_add). rewrite Hrun.
    run_step ltac:(apply (step_go _ TickDriver)).
    run_step ltac:(apply (step_go _ AutoSaveWorker)).
    run_step ltac:(apply (step_go _ Executor)).
    run_step ltac:(apply (step_go _ Watchdog)).
    run_step ltac:(apply step_close).
    run_step ltac:(apply (step_task_exit _ TickDriver)).
    run_step ltac:(apply (step_task_exit _ AutoSaveWorker)).
    run_step ltac:(apply (step_task_exit _ Executor)).
    run_step ltac:(apply (step_task_exit _ Watchdog)).
    apply rtc_refl.
    all: simpl; lia || done. }
  exists w, st, s. split; [done|]. split; [exact Hreach|]. split; [done|].
  apply (New_running_tasks zeroConfig ∅ 0 w st s Hnew Hreach);
    [by rewrite Hpc | done].
Defined.

(** ** The initial tick *)

Section InitialTick.
Context `{Collaborators}.

Lemma elem_of_allTxs s tx :
  tx ∈ allTxs s ↔
  tx ∈ chan_buf (World.queue (world s))
  ∨ World.runningTx (world s) = Some tx
  ∨ tx ∈ executed s.
Proof.
  unfold allTxs. rewrite !elem_of_app.
  destruct (World.runningTx (world s)) as [tx'|]; simpl.
  - rewrite list_elem_of_singleton. split.
    + intros [Hq | [-> | Hex]]; auto.
    + intros [Hq | [Heq | Hex]]; auto. injection Heq as ->. auto.
  - split.
    + intros [Hq | [Hnil | Hex]]; auto. by apply elem_of_nil in Hnil.
    + intros [Hq | [Heq | Hex]]; auto. done.
Qed.

Lemma recv_Some {A} (ch : Chan A) x q :
  recv ch = Some (x, q) →
  chan_buf ch = x :: chan_buf q.
Proof.
  unfold recv. destruct (chan_buf ch) as [|y rest]; [done|].
  intros Heq. injection Heq as -> <-. done.
Qed.

Lemma txInv_init w st :
  World.runningTx w = None → World.queue w = make_chan 128 →
  txInv (initSys w st).
Proof.
  intros Htx Hq. unfold txInv, allTxs. simpl. rewrite Htx, Hq. simpl.
  split; [|split; [|split; [|split]]].
  - intros tx Hin. by apply elem_of_nil in Hin.
  - intros done Hpc. discriminate Hpc.
  - intros ch Hin. by apply elem_of_empty in Hin.
  - intros Hpc. discriminate Hpc.
  - intros done Hpc. discriminate Hpc.
Qed.

Lemma txInv_step s s' : step s s' → txInv s → txInv s'.
Proof.
  intros Hstep (Ha & Hb & Hcl & Hd & He).
  setoid_rewrite elem_of_allTxs in Ha.
  setoid_rewrite elem_of_allTxs in Hb.
  setoid_rewrite elem_of_allTxs in He.
  unfold txInv. setoid_rewrite elem_of_allTxs.
  destruct Hstep as
    [ s Hc Hpc | s t Hc Hpc | s info q Hc Hpc Hsend | s done Hc Hpc Hdone
    | s fn info q Hc Hsend | s tx' q now Hc Hex Hidle Hrecv | s tx' Hc Htx
    | s Hc Hopen | s t Hc Ht Hclosing Hidle | s now panicMsg w' Hc Hwd Hfire ];
    simpl in *.
  - split_and!; [exact Ha | intros done Hpc'; discriminate Hpc' | exact Hcl
                | intros Hpc'; discriminate Hpc'
                | intros done Hpc'; discriminate Hpc'].
  - split_and!; [exact Ha | intros done Hpc'; by destruct t | exact Hcl
                | intros Hpc'; by destruct t
                | intros done Hpc'; by destruct t].
  - apply send_Some in Hsend as [_ ->]. simpl. rewrite Hpc in *.
    setoid_rewrite elem_of_app. setoid_rewrite list_elem_of_singleton.
    split; [|split; [|split; [|split]]].
    + intros tx [[Hq | ->] | Hrest]; [ | simpl; lia | ];
        (assert (c tx < nextChan s)%nat by (apply Ha; auto); lia).
    + intros done [= <-]. split; [lia|].
      intros tx Hin Hctx.
      destruct Hin as [[Hq | ->] | Hrest]; [ | done | ];
        (assert (c tx < nextChan s)%nat by (apply Ha; auto); lia).
    + done.
    + done.
    + intros done [= <-] _. eexists. split; [left; right; reflexivity | done].
  - rewrite Hpc in *. destruct (Hb done eq_refl) as [Hlt Htick].
    split; [done|]. split; [done|]. split; [done|]. split; [|done].
    intros _. destruct (Hcl done Hdone) as (tx & Hin & Hctx).
    exists tx. split; [done|]. apply Htick; auto.
  - apply send_Some in Hsend as [_ ->]. simpl.
    setoid_rewrite elem_of_app. setoid_rewrite list_elem_of_singleton.
    split; [|split; [|split; [|split]]].
    + intros tx [[Hq | ->] | Hrest]; [ | simpl; lia | ];
        (assert (c tx < nextChan s)%nat by (apply Ha; auto); lia).
    + intros done Hpc. destruct (Hb done Hpc) as [Hlt Htick]. split; [lia|].
      intros tx Hin Hctx.
      destruct Hin as [[Hq | ->] | Hrest]; [ | simpl in Hctx; lia | ];
        apply Htick; auto.
    + done.
    + done.
    + intros done Hpc _. destruct (He done Hpc Hc) as (tx & Hin & Hctx).
      exists tx. split; [|done]. destruct Hin as [Hq | Hrest]; auto.
  - apply recv_Some in Hrecv. simpl in Hrecv. rewrite Hrecv, Hidle in *.
    setoid_rewrite elem_of_cons in Ha. setoid_rewrite elem_of_cons in Hb.
    setoid_rewrite elem_of_cons in He.
    split; [|split; [|split; [|split]]].
    + intros tx [Hq | [[= <-] | Hex']]; apply Ha; auto.
    + intros done Hpc. destruct (Hb done Hpc) as [Hlt Htick]. split; [lia|].
      intros tx [Hq | [[= <-] | Hex']]; apply Htick; auto.
    + done.
    + done.
    + intros done Hpc _. destruct (He done Hpc Hc) as (tx & Hin & Hctx).
      exists tx. split; [|done].
      destruct Hin as [[-> | Hq] | [Hrun | Hex']]; auto. done.
  - rewrite Htx in *. setoid_rewrite elem_of_app.
    setoid_rewrite list_elem_of_singleton.
    split; [|split; [|split; [|split]]].
    + intros tx [Hq | [Hrun | [Hex' | ->]]]; [| done | |]; apply Ha; auto.
    + intros done Hpc. destruct (Hb done Hpc) as [Hlt Htick]. split; [lia|].
      intros tx [Hq | [Hrun | [Hex' | ->]]]; [| done | |]; apply Htick; auto.
    + intros ch Hin. apply elem_of_union in Hin as [Hin | Hin].
      * apply elem_of_singleton in Hin as ->. exists tx'. auto.
      * destruct (Hcl ch Hin) as (tx & Hin' & Hctx). exists tx. auto.
    + intros Hpc. destruct (Hd Hpc) as (tx & Hin & Hf). exists tx. auto.
    + intros done Hpc _. destruct (He done Hpc Hc) as (tx & Hin & Hctx).
      exists tx. split; [|done].
      destruct Hin as [Hq | [[= ->] | Hex']]; auto.
  - split_and!; [exact Ha | exact Hb | exact Hcl | exact Hd
                | intros done Hpc _; by apply He].
  - split_and!; [exact Ha | exact Hb | exact Hcl | exact Hd
                | intros done Hpc _; by apply He].
  - apply watchdogTick_Some in Hfire as (hanging & Htx & _ & _ & ->).
    simpl. rewrite deadlockReport_queue.
    split; [|split; [|split; [|split]]].
    + intros tx [Hq | Hrest]; [by apply elem_of_nil in Hq|]. apply Ha; auto.
    + intros done Hpc. destruct (Hb done Hpc) as [Hlt Htick]. split; [lia|].
      intros tx [Hq | Hrest]; [by apply elem_of_nil in Hq|]. apply Htick; auto.
    + done.
    + done.
    + done.
Qed.
Lemma txInv_reachable w st s :
  World.runningTx w = None → World.queue w = make_chan 128 →
  reachable w st s → txInv s.
Proof.
  intros Htx Hq. unfold reachable. revert s. apply rtc_ind_r.
  - by apply txInv_init.
  - intros s s' _ Hstep Hinv. by eapply txInv_step.
Qed.

End InitialTick.

(** C10: [New] returns only from its wait on the completion channel of the
    transaction it submitted on line 162, and only once that channel is
    closed. The transaction it submitted is a tick transaction, put at the
    back of the queue; while [New] waits it is queued, running or executed
    (no panic having occurred), and once its channel is closed it has been
    executed. So in every state in which [New] has returned, a tick
    transaction has been executed. *)
Theorem New_initial_tick `{Collaborators} conf st0 now w st s :
  New conf st0 now = Some (w, st) →
  reachable w st s →
  (pc s = AtReturn → ∃ tx, tx ∈ executed s ∧ f tx = tick)
  ∧ (∀ s' done, step s s' → pc s' = AtAwait done → pc s ≠ AtAwait done →
       pc s = AtExec
       ∧ ∃ info, chan_buf (World.queue (world s'))
                 = chan_buf (World.queue (world s)) ++ [mkTx tick info done])
  ∧ (∀ done, pc s = AtAwait done → crashed s = None →
       ∃ tx, tx ∈ allTxs s ∧ c tx = done ∧ f tx = tick)
  ∧ (∀ done, pc s = AtAwait done → done ∈ closedChans s →
       ∃ tx, tx ∈ executed s ∧ c tx = done ∧ f tx = tick)
  ∧ (∀ s', step s s' → pc s' = AtReturn → pc s ≠ AtReturn →
       ∃ done, pc s = AtAwait done ∧ done ∈ closedChans s).
Proof.
  intros Hnew Hreach.
  destruct (New_fresh _ _ _ _ _ Hnew) as (_ & Htx & _ & Hq).
  destruct (txInv_reachable w st s Htx Hq Hreach) as (Ha & Hb & Hcl & Hd & He).
  split_and!.
  - exact Hd.
  - intros s' done Hstep Hpc' Hpc.
    inversion Hstep; subst; simpl in *; try congruence.
    + by destruct t.
    + injection Hpc' as <-. split; [done|]. exists info.
      match goal with
      | Hsend : send _ _ = Some _ |- _ => apply send_Some in Hsend as [_ ->]
      end.
      done.
  - exact He.
  - intros done Hpc Hclosed. destruct (Hb done Hpc) as [_ Htick].
    destruct (Hcl done Hclosed) as (tx & Hin & Hctx).
    exists tx. split; [done|]. split; [done|].
    apply Htick; [|done]. apply elem_of_allTxs. auto.
  - intros s' Hstep Hpc' Hpc.
    inversion Hstep; subst; simpl in *; try congruence.
    + by destruct t.
    + by exists done.
Qed.

Lemma New_initial_tick_witness :
  ∃ w st s,
    New zeroConfig ∅ 0 = Some (w, st)
    ∧ reachable w st s
    ∧ pc s = AtReturn
    ∧ ∃ tx, tx ∈ executed s ∧ f tx = tick.
Proof.
  destruct (New zeroConfig ∅ 0) as [[w st]|] eqn:Hnew;
    [| vm_compute in Hnew; discriminate].
  destruct (New_fresh _ _ _ _ _ Hnew) as (Hrun & Htx & Hopen & Hq).
  assert (∃ s, reachable w st s ∧ pc s = AtReturn) as (s & Hreach & Hpc).
  { eexists. split; [unfold reachable |].
    run_step ltac:(apply step_add).
    run_step ltac:(apply (step_go _ TickDriver)).
    run_step ltac:(apply (step_go _ AutoSaveWorker)).
    run_step ltac:(apply (step_go _ Executor)).
    run_step ltac:(apply (step_go _ Watchdog)).
    eapply rtc_l.
    { eapply (step_exec _ ["world.Config.New at conf.go:162"]);
        [done | done | simpl; rewrite Hq; reflexivity]. }
    simpl.
    eapply rtc_l.
    { eapply (step_tx_begin _ _ _ 0);
        [done | done | simpl; exact Htx | simpl; reflexivity]. }
    simpl.
    eapply rtc_l.
    { eapply step_tx_end; [done | simpl; reflexivity]. }
    simpl.
    eapply rtc_l.
    { eapply (step_return _ 0%nat); [done | done |].
      simpl. apply elem_of_union_l, elem_of_singleton. reflexivity. }
    apply rtc_refl.
    reflexivity. }
  exists w, st, s. split; [done|]. split; [exact Hreach|]. split; [exact Hpc|].
  by apply (New_initial_tick zeroConfig ∅ 0 w st s Hnew Hreach).
Defined.

(** * Further properties *)

(** ** Config.New *)

(** X1: giving the options their defaults a second time changes nothing:
    the configuration a World holds is one that [New] would take as it is,
    whatever the clock reads. *)
Theorem New_defaults_idempotent `{Collaborators} conf now now' :
  New_defaults (New_defaults conf now) now' = New_defaults conf now.
Proof.
  rewrite (New_defaults_eq (New_defaults conf now)).
  rewrite !New_defaults_Log, !New_defaults_Dim, !New_defaults_Provider,
    !New_defaults_Generator, !New_defaults_RandSource,
    !New_defaults_SaveInterval, !New_defaults_RandomTickSpeed.
  rewrite (New_defaults_eq conf now) at 1 2 3. simpl.
  rewrite New_defaults_eq. f_equal.
  - destruct (Config.SaveInterval conf =? 0) eqn:Hsave; [done|].
    by rewrite Hsave.
  - destruct (Config.RandomTickSpeed conf =? 0) eqn:Hspeed; [done|].
    by rewrite Hspeed.
Qed.

(** X2: [New] overrides no option that is set. A logger, dimension,
    provider, generator or random source that is given, a save interval or
    random tick speed other than zero, and the read-only flag, the portal
    destination and the entity registry are in the World's configuration
    as they were passed. *)
Theorem New_keeps_set_options `{Collaborators} conf st now w st' :
  New conf st now = Some (w, st') →
  (∀ l, Config.Log conf = Some l → Config.Log (World.conf w) = Some l)
  ∧ (∀ d, Config.Dim conf = Some d →
       Config.Dim (World.conf w) = Some d ∧ World.ra w = Range d)
  ∧ (∀ p, Config.Provider conf = Some p →
       Config.Provider (World.conf w) = Some p)
  ∧ (∀ g, Config.Generator conf = Some g →
       Config.Generator (World.conf w) = Some g)
  ∧ (∀ src, Config.RandSource conf = Some src →
       Config.RandSource (World.conf w) = Some src ∧ World.r w = src)
  ∧ (Config.SaveInterval conf ≠ 0 →
       Config.SaveInterval (World.conf w) = Config.SaveInterval conf)
  ∧ (Config.RandomTickSpeed conf ≠ 0 →
       Config.RandomTickSpeed (World.conf w) = Config.RandomTickSpeed conf)
  ∧ Config.ReadOnly (World.conf w) = Config.ReadOnly conf
  ∧ Config.PortalDestination (World.conf w) = Config.PortalDestination conf
  ∧ Config.Entities (World.conf w) = Config.Entities conf.
Proof.
  rewrite New_unfold. cbv zeta. intros Hnew.
  destruct (_ !! _) as [s|]; [|done]. simpl in Hnew.
  injection Hnew as <- _. simpl. rewrite New_defaults_eq. simpl.
  split_and!; try done.
  - intros l Hl. by rewrite Hl.
  - intros d Hd. by rewrite Hd.
  - intros p Hp. by rewrite Hp.
  - intros g Hg. by rewrite Hg.
  - intros src Hsrc. by rewrite Hsrc.
  - intros Hsave. by destruct (Z.eqb_spec (Config.SaveInterval conf) 0).
  - intros Hspeed. by destruct (Z.eqb_spec (Config.RandomTickSpeed conf) 0).
Qed.

Lemma New_keeps_set_options_witness :
  ∃ w st', New sharedConfig oneSettings 7 = Some (w, st')
    ∧ Config.Log (World.conf w) = Some "log"
    ∧ Config.SaveInterval (World.conf w) = -1
    ∧ World.ra w = (0, 255).
Proof.
  destruct (New sharedConfig oneSettings 7) as [[w st']|] eqn:Hnew;
    [| vm_compute in Hnew; discriminate].
  exists w, st'. split; [done|].
  destruct (New_keeps_set_options sharedConfig oneSettings 7 w st' Hnew)
    as (Hlog & Hdim & _ & _ & _ & Hsave & _).
  split; [by apply Hlog|]. split; [by apply Hsave|].
  by apply (Hdim (0, 255)).
Defined.

(** X3: of the store, [New] changes the reference count of the settings
    object its provider hands out and nothing else: the name and current
    tick of that object stay, the count goes up by one (wrapping at 32
    bits), every other object is as the provider left it, and the World
    points at that object and schedules its ticks from its current tick. *)
Theorem New_store_frame `{Collaborators} conf st now w st' :
  New conf st now = Some (w, st') →
  let prov := default NopProvider (Config.Provider conf) in
  let st1 := (Provider_Settings prov st).2 in
  World.set w = (Provider_Settings prov st).1
  ∧ (∀ q, q ≠ World.set w → st' !! q = st1 !! q)
  ∧ ∃ s, st1 !! World.set w = Some s
      ∧ st' !! World.set w
        = Some (mkSettings (Name s) (CurrentTick s) (atomic.Add (ref s) 1))
      ∧ World.scheduledUpdates w = newScheduledTickQueue (CurrentTick s)
      ∧ World.advance w = bool_decide (atomic.Add (ref s) 1 = 1).
Proof.
  rewrite New_unfold. cbv zeta. intros Hnew.
  destruct (_ !! _) as [s|] eqn:Hs; [|done]. simpl in Hnew.
  injection Hnew as <- <-. simpl.
  split; [done|]. split.
  - intros q Hq. by rewrite lookup_insert_ne.
  - exists s. split; [done|]. split; [by rewrite lookup_insert_eq|].
    split; [done|].
    case_bool_decide as Hn; [by apply Z.eqb_eq | by apply Z.eqb_neq].
Qed.

Lemma New_store_frame_witness :
  ∃ w st', New sharedConfig oneSettings 7 = Some (w, st')
    ∧ World.set w = 0%nat
    ∧ st' !! 1%nat = None
    ∧ st' !! 0%nat = Some (mkSettings "lobby" 100 1).
Proof.
  destruct (New sharedConfig oneSettings 7) as [[w st']|] eqn:Hnew;
    [| vm_compute in Hnew; discriminate].
  exists w, st'. split; [done|].
  destruct (New_store_frame sharedConfig oneSettings 7 w st' Hnew)
    as (Hset & Hframe & s & Hs & Hs' & _).
  assert (Hw : World.set w = 0%nat) by exact Hset.
  cbv zeta in Hframe, Hs. rewrite Hw in Hframe, Hs, Hs'.
  split; [exact Hw|]. split.
  - etrans; [apply Hframe; done | vm_compute; reflexivity].
  - vm_compute in Hs. injection Hs as <-. exact Hs'.
Defined.


(** X5: the random source of the World is the one of its configuration.
    When none was given it is a PCG source whose two seeds are the same
    number, the clock reading taken modulo 2^64, so a number from 0 up to
    2^64 - 1 even when the reading is negative. *)
Theorem New_RandSource `{Collaborators} conf st now w st' :
  New conf st now = Some (w, st') →
  Config.RandSource (World.conf w) = Some (World.r w)
  ∧ (Config.RandSource conf = None →
       ∃ t, 0 ≤ t < 2 ^ 64 ∧ (t - now) mod 2 ^ 64 = 0
         ∧ World.r w = rand_NewPCG t t).
Proof.
  rewrite New_unfold. cbv zeta. intros Hnew.
  destruct (_ !! _) as [s|]; [|done]. simpl in Hnew.
  injection Hnew as <- _. simpl. rewrite New_defaults_RandSource.
  split; [done|]. intros Hnil. rewrite Hnil. simpl.
  exists (now mod 2 ^ 64). split; [apply Z.mod_pos_bound; lia|].
  split; [|done].
  rewrite Zminus_mod_idemp_l, Z.sub_diag. done.
Qed.

Lemma New_RandSource_witness :
  ∃ w st', New zeroConfig ∅ (-1) = Some (w, st')
    ∧ World.r w = (2 ^ 64 - 1, 2 ^ 64 - 1).
Proof.
  destruct (New zeroConfig ∅ (-1)) as [[w st']|] eqn:Hnew;
    [| vm_compute in Hnew; discriminate].
  exists w, st'. split; [done|].
  destruct (New_RandSource zeroConfig ∅ (-1) w st' Hnew) as [_ Hseed].
  destruct Hseed as (t & Hrange & Hmod & ->); [reflexivity|].
  assert (t = 2 ^ 64 - 1) as ->; [|reflexivity].
  apply Z.mod_divide in Hmod as [k Hk]; lia.
Defined.

(** ** The watchdog *)

(** X6: whenever the watchdog panics it has taken every waiting
    transaction out of the queue, however many there were; the capacity of
    the queue, the record of the running transaction, the counter of
    running tasks and the closing channel are as they were. *)
Theorem watchdog_panic_empties_queue `{Collaborators} w st now panicMsg w' :
  watchdogTick w st now = Some (panicMsg, w') →
  chan_buf (World.queue w') = []
  ∧ chan_cap (World.queue w') = chan_cap (World.queue w)
  ∧ World.runningTx w' = World.runningTx w
  ∧ World.runningTxAt w' = World.runningTxAt w
  ∧ World.running w' = World.running w
  ∧ World.closing w' = World.closing w.
Proof.
  intros Hfire. apply watchdogTick_Some in Hfire as (hanging & _ & _ & _ & ->).
  simpl. split; [apply deadlockReport_queue|]. split_and!; try done.
  unfold deadlockReport. cbv zeta.
  match goal with
  | |- context [drainPending ?buf ?no ?msg] =>
      destruct (drainPending buf no msg) as [[rest n] report]
  end.
  done.
Qed.

Lemma watchdog_panic_empties_queue_witness :
  ∃ panicMsg w',
    watchdogTick (stuckWorld (pendingTxs 30)) oneSettings (26 * time.Second)
    = Some (panicMsg, w')
    ∧ chan_buf (World.queue w') = []
    ∧ chan_cap (World.queue w') = 128%nat.
Proof.
  destruct (watchdogTick (stuckWorld (pendingTxs 30)) oneSettings
              (26 * time.Second)) as [[panicMsg w']|] eqn:Hfire;
    [| vm_compute in Hfire; discriminate].
  exists panicMsg, w'. split; [done|].
  destruct (watchdog_panic_empties_queue _ _ _ _ _ Hfire) as (Hbuf & Hcap & _).
  split; [exact Hbuf | exact Hcap].
Defined.

(** From the eleventh transaction on, the loop adds the same to the message
    whatever the transaction is. *)
Lemma drainPending_past_ten buf1 buf2 no panicMsg :
  10 ≤ no → length buf1 = length buf2 →
  drainPending buf1 no panicMsg = drainPending buf2 no panicMsg.
Proof.
  revert buf2 no panicMsg. induction buf1 as [|tx1 buf1 IH];
    intros [|tx2 buf2] no panicMsg Hno Hlen; try done.
  cbn [drainPending]. destruct (Z.gtb_spec (no + 1) 10) as [_ | Hle]; [|lia].
  apply IH; [lia|]. simpl in Hlen. lia.
Qed.

Lemma drainPending_first_ten buf1 buf2 no panicMsg :
  take (Z.to_nat (10 - no)) buf1 = take (Z.to_nat (10 - no)) buf2 →
  length buf1 = length buf2 →
  drainPending buf1 no panicMsg = drainPending buf2 no panicMsg.
Proof.
  revert buf2 no panicMsg. induction buf1 as [|tx1 buf1 IH];
    intros [|tx2 buf2] no panicMsg Htake Hlen; try done.
  destruct (decide (10 ≤ no)) as [Hpast | Hbefore].
  { by apply drainPending_past_ten. }
  cbn [drainPending]. destruct (Z.gtb_spec (no + 1) 10) as [Hgt | _]; [lia|].
  replace (Z.to_nat (10 - no)) with (S (Z.to_nat (10 - (no + 1)))) in Htake
    by lia.
  simpl in Htake. injection Htake as -> Htake.
  apply IH; [done|]. simpl in Hlen. lia.
Qed.

(** X7: the report depends on the waiting transactions through the first
    ten of them and through their number only: transactions beyond the
    tenth leave no trace of their own in the message, each one adds a line
    of three dots. *)
Theorem deadlockReport_first_ten name cap buf1 buf2 hanging :
  take 10 buf1 = take 10 buf2 →
  length buf1 = length buf2 →
  deadlockReport name (mkChan cap buf1) hanging
  = deadlockReport name (mkChan cap buf2) hanging.
Proof.
  intros Htake Hlen. unfold deadlockReport. cbv zeta. simpl.
  match goal with
  | |- context [drainPending buf1 ?no ?msg] =>
      rewrite (drainPending_first_ten buf1 buf2 no msg) by done
  end.
  done.
Qed.

Lemma deadlockReport_first_ten_witness :
  deadlockReport "lobby" (mkChan 128 (pendingTxs 12)) hangingTx
  = deadlockReport "lobby"
      (mkChan 128 (pendingTxs 10 ++ [hangingTx; hangingTx])) hangingTx.
Proof.
  apply deadlockReport_first_ten; reflexivity.
Defined.

Section WatchdogRuns.
Context `{Collaborators}.

(** X8: once the watchdog has panicked or returned, nothing that happens
    later changes that: after the closing signal has been observed no
    ticker firing raises a panic, and after a panic no closing signal turns
    it into a return. *)
Theorem watchdog_settled (evs more : list WatchdogEvent) :
  watchdog evs ≠ Waiting → watchdog (evs ++ more) = watchdog evs.
Proof.
  induction evs as [|[w st now|] evs IH]; intros Hsettled; simpl in *.
  - done.
  - destruct (watchdogTick w st now) as [[panicMsg w']|]; [done|]. by apply IH.
  - done.
Qed.

(** X9: the watchdog returns, having taken one off the counter of running
    tasks, exactly when it observes the closing signal after ticker firings
    none of which found a transaction running for more than 20 seconds. *)
Theorem watchdog_returns_iff (evs : list WatchdogEvent) :
  watchdog evs = Returned ↔
  ∃ pre post,
    evs = pre ++ ClosingObserved :: post
    ∧ (ClosingObserved ∉ pre)
    ∧ ∀ w st now, TickerFired w st now ∈ pre →
        ¬ (is_Some (World.runningTx w)
           ∧ now - World.runningTxAt w > 20 * time.Second).
Proof.
  induction evs as [|[w st now|] evs IH]; simpl.
  - split; [done|]. intros (pre & post & Hevs & _). by destruct pre.
  - destruct (watchdogTick w st now) as [[panicMsg w']|] eqn:Hfire.
    + split; [done|]. intros (pre & post & Hevs & Hpre & Hquiet).
      destruct pre as [|ev pre]; simpl in Hevs; [done|].
      injection Hevs as <- _. exfalso.
      apply (Hquiet w st now); [by left|].
      apply (watchdogTick_is_Some w st now). by eexists.
    + rewrite IH. split.
      * intros (pre & post & -> & Hpre & Hquiet).
        exists (TickerFired w st now :: pre), post. split; [done|].
        split; [apply not_elem_of_cons; done|].
        intros w1 st1 now1 Hin. apply elem_of_cons in Hin as [Heq | Hin].
        -- injection Heq as -> -> ->.
           rewrite <- (watchdogTick_is_Some w st now), Hfire.
           by intros [? ?].
        -- by apply (Hquiet w1 st1 now1).
      * intros (pre & post & Hevs & Hpre & Hquiet).
        destruct pre as [|ev pre]; simpl in Hevs; [done|].
        injection Hevs as <- ->. exists pre, post. split; [done|].
        apply not_elem_of_cons in Hpre as [_ Hpre]. split; [done|].
        intros w1 st1 now1 Hin. apply (Hquiet w1 st1 now1). by right.
  - split; [intros _ | done]. exists [], evs. split; [done|].
    split; [apply not_elem_of_nil|]. intros w st now Hin.
    by apply elem_of_nil in Hin.
Qed.

End WatchdogRuns.

Lemma watchdog_settled_witness :
  watchdog [ClosingObserved;
            TickerFired (stuckWorld []) oneSettings (26 * time.Second)]
  = Returned.
Proof.
  apply (watchdog_settled [ClosingObserved]
           [TickerFired (stuckWorld []) oneSettings (26 * time.Second)]).
  simpl. discriminate.
Defined.

(** ** Caller information *)

(** X10: [captureCallerInfo] never returns an empty list and never more
    than 64 lines: it returns one line for every frame above its own, up
    to 64 of them, and a single line when there is no such frame. *)
Theorem captureCallerInfo_count stack :
  length (captureCallerInfo stack)
  = (1 `max` (64 `min` (length stack - 2)))%nat.
Proof.
  unfold captureCallerInfo, Callers. cbv zeta.
  assert (Hlen : length (take 64 (drop 2 stack))
                 = (64 `min` (length stack - 2))%nat)
    by (by rewrite length_take, length_drop).
  revert Hlen. destruct (take 64 (drop 2 stack)) as [|fr pc]; intros Hlen.
  - cbn [length] in *. lia.
  - rewrite length_fmap. cbn [length] in *. lia.
Qed.

(** X11: the lines are those of the callers, innermost first: line [i] is
    the frame [i + 2] of the stack, the two frames skipped being
    [runtime.Callers] and [captureCallerInfo] themselves, written as
    function, file and line. *)
Theorem captureCallerInfo_lines stack (i : nat) fr :
  (i < 64)%nat →
  stack !! (i + 2)%nat = Some fr →
  captureCallerInfo stack !! i
  = Some (Function fr +:+ " at " +:+ File fr +:+ ":" +:+ sprintf_d (Line fr)).
Proof.
  intros Hi Hfr. unfold captureCallerInfo, Callers. cbv zeta.
  assert (Hpc : take 64 (drop 2 stack) !! i = Some fr).
  { rewrite lookup_take_lt by done. rewrite lookup_drop.
    by replace (2 + i)%nat with (i + 2)%nat by lia. }
  revert Hpc. destruct (take 64 (drop 2 stack)) as [|fr0 pc]; intros Hpc.
  - done.
  - rewrite list_lookup_fmap, Hpc. done.
Qed.

Lemma captureCallerInfo_lines_witness :
  captureCallerInfo exampleStack !! 1%nat = Some "main.run at main.go:7".
Proof.
  apply (captureCallerInfo_lines exampleStack 1 (mkFrame "main.run" "main.go" 7));
    [lia | reflexivity].
Defined.

(** ** The counter of running tasks *)

(** X12: in every state a World made by [New] can reach the counter of
    running tasks is between 0 and 4: a task calls [Done] only once and
    only after line 104 has added it, so the counter never goes below
    zero. *)
Theorem New_running_bounds `{Collaborators} conf st0 now w st s :
  New conf st0 now = Some (w, st) →
  reachable w st s →
  0 ≤ World.running (world s) ≤ 4.
Proof.
  intros Hnew Hreach.
  destruct (New_fresh _ _ _ _ _ Hnew) as (Hrun & _).
  destruct (runningInv_reachable w st s Hrun Hreach) as [Hcount Hstarted].
  pose proof (exitedCount_bounds (tasks s)) as Hexited.
  destruct (pc s) eqn:Hpc; simpl in Hcount; try lia.
  rewrite exitedCount_none in Hcount; [lia|].
  intros t. by apply Hstarted.
Qed.

Lemma New_running_bounds_witness :
  ∃ w st s,
    New zeroConfig ∅ 0 = Some (w, st)
    ∧ reachable w st s
    ∧ pc s = AtGo TickDriver
    ∧ 0 ≤ World.running (world s) ≤ 4.
Proof.
  destruct (New zeroConfig ∅ 0) as [[w st]|] eqn:Hnew;
    [| vm_compute in Hnew; discriminate].
  assert (∃ s, reachable w st s ∧ pc s = AtGo TickDriver)
    as (s & Hreach & Hpc).
  { eexists. split; [unfold reachable |].
    run_step ltac:(apply step_add).
    apply rtc_refl.
    reflexivity. }
  exists w, st, s. split; [done|]. split; [exact Hreach|]. split; [exact Hpc|].
  exact (New_running_bounds zeroConfig ∅ 0 w st s Hnew Hreach).
Defined.

(** ** Session packet handlers *)

(** Membership in a list that is written out. *)
Ltac in_list := rewrite ?elem_of_cons; auto 10.
Ltac not_in_list H :=
  repeat (apply elem_of_cons in H as [H | H]; [discriminate H|]);
  by apply elem_of_nil in H.

Section HandlerFacts.
Variables (Rest Vec3 : Type).
Variable effect : Call Vec3 → HandlerState Rest → HandlerState Rest.
Variable dimensionID : HandlerState Rest → Z.
Variable Position : HandlerState Rest → Vec3.
Variable LoadingScreenTypeEnd : Z.

Local Abbreviation loadingHandle :=
  (ServerBoundLoadingScreenHandler_Handle effect dimensionID Position
     LoadingScreenTypeEnd).
Local Abbreviation run := (foldl (λ st cl, effect cl st)).

(** What [Handle] gives for each of the four cases of its [switch]. *)
Lemma closeHandle_cases id e :
  let e1 := effect MoveItemsToInventory e in
  let opened := openedWindowID (sess e1) mod 256 in
  ContainerCloseHandler_Handle effect (ContainerClose id) e =
  Some (
    if decide (id = 0) then
      (setInvOpened (effect (writePacket zeroContainerClose) e1) false,
       [MoveItemsToInventory; writePacket zeroContainerClose])
    else if decide (id = opened) then
      (effect closeCurrentContainer e1,
       [MoveItemsToInventory; closeCurrentContainer])
    else if decide (id = 255) then (e1, [MoveItemsToInventory])
    else
      (effect (LogDebug "unexpected close request for unopened container" id) e1,
       [MoveItemsToInventory;
        LogDebug "unexpected close request for unopened container" id]),
    None).
Proof.
  unfold ContainerCloseHandler_Handle, call. simpl.
  destruct (Z.eqb_spec id 0) as [-> | Hid]; [by rewrite decide_True|].
  rewrite (decide_False (P := id = 0)) by done.
  destruct (Z.eqb_spec id (openedWindowID (sess (effect MoveItemsToInventory e))
                           mod 256)) as [Hopen | Hother].
  { by rewrite decide_True. }
  rewrite decide_False by done.
  destruct (Z.eqb_spec id 255) as [-> | Hgrid]; [by rewrite decide_True|].
  by rewrite decide_False.
Qed.

(** X13: [ContainerCloseHandler.Handle] takes a ContainerClose packet
    and nothing else (on any other packet its type assertion panics); on
    such a packet it never returns an error, it moves the player's items
    back to the inventory before anything else, and it makes at most one
    more call. *)
Theorem ContainerCloseHandler_never_fails p e :
  match ContainerCloseHandler_Handle effect p e with
  | Some (e', calls, err) =>
      (∃ id, p = ContainerClose id)
      ∧ err = None
      ∧ calls !! 0%nat = Some MoveItemsToInventory
      ∧ (length calls ≤ 2)%nat
  | None => ∀ id, p ≠ ContainerClose id
  end.
Proof.
  destruct p as [id | ty lsid | n]; [|done|done].
  rewrite closeHandle_cases. cbv zeta.
  repeat case_decide; simpl; (split; [by exists id|]); split_and!; done || lia.
Qed.

(** X14: the current container is closed exactly when the packet's window
    id is not 0 and equals the low eight bits of the id of the window that
    is open once the items have been moved. So a window whose id is a
    multiple of 256 is never closed by its packet, and window 257 is closed
    by a packet for window 1. *)
Theorem ContainerCloseHandler_closes_iff id e e' calls err :
  ContainerCloseHandler_Handle effect (ContainerClose id) e = Some (e', calls, err) →
  closeCurrentContainer ∈ calls ↔
  id ≠ 0
  ∧ id = openedWindowID (sess (effect MoveItemsToInventory e)) mod 256.
Proof.
  rewrite closeHandle_cases. cbv zeta. intros Hhandle.
  repeat case_decide; injection Hhandle as <- <- <-; split;
    try (intros Hin; not_in_list Hin); try (intros [? ?]; done);
    try (intros _; split; done); try (intros _; in_list).
Qed.

(** X15: the handler writes a ContainerClose packet back exactly when
    the packet is for window 0, the inventory, and then the inventory is
    marked as not opened and no container is closed, whichever window is
    open. For any other window the handler writes no field of the session
    itself: the state it leaves is the one its calls produce. *)
Theorem ContainerCloseHandler_inventory id e e' calls err :
  ContainerCloseHandler_Handle effect (ContainerClose id) e = Some (e', calls, err) →
  (writePacket zeroContainerClose ∈ calls ↔ id = 0)
  ∧ (id = 0 →
       calls = [MoveItemsToInventory; writePacket zeroContainerClose]
       ∧ e' = setInvOpened (run e calls) false
       ∧ invOpened (sess e') = false)
  ∧ (id ≠ 0 → e' = run e calls).
Proof.
  rewrite closeHandle_cases. cbv zeta. intros Hhandle.
  repeat case_decide; injection Hhandle as <- <- <-; split_and!; try done;
    try (split; [intros Hin; not_in_list Hin | done]).
  split; [intros _; done | intros _; in_list].
Qed.

(** X16: the handler logs a debug message exactly for a window id that is
    neither 0, nor the low eight bits of the open window's id, nor 255;
    the message carries that window id. A packet for window 255, the
    crafting grid, is passed over without a log line unless a window with
    those low bits is open, which is then closed. *)
Theorem ContainerCloseHandler_logs_iff id e e' calls err :
  ContainerCloseHandler_Handle effect (ContainerClose id) e = Some (e', calls, err) →
  (∀ msg window_id, LogDebug msg window_id ∈ calls →
     window_id = id
     ∧ msg = "unexpected close request for unopened container")
  ∧ ((∃ msg window_id, LogDebug msg window_id ∈ calls) ↔
     id ≠ 0
     ∧ id ≠ openedWindowID (sess (effect MoveItemsToInventory e)) mod 256
     ∧ id ≠ 255).
Proof.
  rewrite closeHandle_cases. cbv zeta. intros Hhandle.
  repeat case_decide; injection Hhandle as <- <- <-; split.
  all: try (intros msg window_id Hin; not_in_list Hin).
  all: try (split; [intros (msg & window_id & Hin); not_in_list Hin
                   | intros (? & ? & ?); done]).
  - intros msg window_id Hin.
    apply elem_of_cons in Hin as [Hin | Hin]; [discriminate Hin|].
    apply list_elem_of_singleton in Hin. by injection Hin as -> ->.
  - split; [done|]. intros _. eexists _, _. in_list.
Qed.


(** What the loading screen handler gives: nothing happens unless the
    packet carries the id that is expected; an End packet that does is
    acted on. *)
Lemma loadingHandle_cases ty v e :
  let expected := expectedID (loadingScreen e) in
  loadingHandle (ServerBoundLoadingScreen ty (Some v)) e =
  Some (
    if decide (expected = 0) then (e, [], None)
    else if decide (v ≠ expected) then
      (e, [], Some (loadingScreenError expected v))
    else if decide (ty = LoadingScreenTypeEnd) then
      let e0 :=
        setRequireResendDimension
          (setExpectedID (setChangingDimension e false) 0) false in
      let calls0 :=
        if requireResendDimension (sess e)
        then [changeDimension (atomic.wrap32 (dimensionID e0)) true true]
        else [] in
      let e2 := run e0 (calls0 ++ [Flush; ViewEntityState]) in
      (effect (ViewEntityTeleport (Position e2)) e2,
       calls0 ++ [Flush; ViewEntityState; ViewEntityTeleport (Position e2)],
       None)
    else (e, [], None)).
Proof.
  unfold ServerBoundLoadingScreenHandler_Handle, call. cbv zeta.
  destruct (Z.eqb_spec (expectedID (loadingScreen e)) 0) as [Hnone | Hsome].
  { by rewrite decide_True. }
  rewrite decide_False by done.
  destruct (Z.eqb_spec v (expectedID (loadingScreen e))) as [Hv | Hv]; simpl.
  2: { by rewrite decide_True. }
  rewrite decide_False by (intros Hne; by apply Hne).
  destruct (Z.eqb_spec ty LoadingScreenTypeEnd) as [Hend | Hother].
  2: { by rewrite decide_False. }
  rewrite decide_True by done.
  destruct e as [[inv opened changing resend] h r].
  destruct resend; reflexivity.
Qed.

(** X17: the loading screen handler returns an error exactly when the
    packet carries an id, an id is expected (the expected id is not 0) and
    the two differ. The error names both ids, and nothing else happens:
    the state is as it was and no call is made. *)
Theorem LoadingScreenHandler_error_iff ty lsid e e' calls err :
  ServerBoundLoadingScreenHandler_Handle effect dimensionID Position
    LoadingScreenTypeEnd (ServerBoundLoadingScreen ty lsid) e
  = Some (e', calls, err) →
  (is_Some err ↔
     ∃ v, lsid = Some v
       ∧ expectedID (loadingScreen e) ≠ 0
       ∧ v ≠ expectedID (loadingScreen e))
  ∧ (∀ v, is_Some err → lsid = Some v →
       err = Some ("expected loading screen ID "
                   +:+ sprintf_d (expectedID (loadingScreen e))
                   +:+ ", got " +:+ sprintf_d v)
       ∧ e' = e ∧ calls = []).
Proof.
  destruct lsid as [v|].
  - rewrite loadingHandle_cases. cbv zeta. intros Hhandle.
    repeat case_decide; injection Hhandle as <- <- <-; split.
    all: try (split; [by intros [? ?] | intros (v' & Hv' & ? & ?)];
              injection Hv' as <-; done).
    all: try (intros v' [? ?]; done).
    + split; [intros _; by exists v | by eexists].
    + intros v' _ Hv'. injection Hv' as <-. done.
  - simpl. intros Hhandle. injection Hhandle as <- <- <-. split.
    + split; [by intros [? ?] | by intros (v & ? & _)].
    + intros v [? ?]. done.
Qed.

(** X18: the handler acts exactly on a packet of type End that carries
    the expected id, an id being expected. On every other loading screen
    packet (no id, no id expected, another type) it makes no call and
    leaves the state alone. A packet of type End with id 0 is therefore
    never acted on. *)
Theorem LoadingScreenHandler_acts_iff ty lsid e e' calls err :
  ServerBoundLoadingScreenHandler_Handle effect dimensionID Position
    LoadingScreenTypeEnd (ServerBoundLoadingScreen ty lsid) e
  = Some (e', calls, err) →
  (calls ≠ [] ↔
     ty = LoadingScreenTypeEnd
     ∧ lsid = Some (expectedID (loadingScreen e))
     ∧ expectedID (loadingScreen e) ≠ 0)
  ∧ (calls = [] → e' = e).
Proof.
  destruct lsid as [v|].
  - rewrite loadingHandle_cases. cbv zeta. intros Hhandle.
    repeat case_decide; injection Hhandle as <- <- <-; split; try done.
    all: try (split; [done | intros (? & Hv & ?)]; injection Hv as ->; done).
    + split; [intros _ | intros _ Hnil].
      * split; [done|]. split; [|done]. f_equal.
        destruct (decide (v = expectedID (loadingScreen e))); [done|].
        exfalso. auto.
      * by destruct (requireResendDimension (sess e)).
    + intros Hnil. by destruct (requireResendDimension (sess e)).
  - simpl. intros Hhandle. injection Hhandle as <- <- <-.
    split; [|done]. split; [done | by intros (_ & ? & _)].
Qed.

(** X19: when the handler acts, it first clears [changingDimension], the
    expected id and [requireResendDimension], then makes its calls, and
    writes nothing after them. It flushes the connection and sends the
    entity state and the player's position, in this order; before that it
    changes dimension, once, exactly when [requireResendDimension] was
    set. It returns no error. *)
Theorem LoadingScreenHandler_end ty lsid e e' calls err :
  ServerBoundLoadingScreenHandler_Handle effect dimensionID Position
    LoadingScreenTypeEnd (ServerBoundLoadingScreen ty lsid) e
  = Some (e', calls, err) →
  calls ≠ [] →
  ∃ e0 dims pos,
    changingDimension (sess e0) = false
    ∧ requireResendDimension (sess e0) = false
    ∧ expectedID (loadingScreen e0) = 0
    ∧ currentID (loadingScreen e0) = currentID (loadingScreen e)
    ∧ invOpened (sess e0) = invOpened (sess e)
    ∧ openedWindowID (sess e0) = openedWindowID (sess e)
    ∧ rest e0 = rest e
    ∧ calls = dims ++ [Flush; ViewEntityState; ViewEntityTeleport pos]
    ∧ dims = (if requireResendDimension (sess e)
              then [changeDimension (atomic.wrap32 (dimensionID e0)) true true]
              else [])
    ∧ e' = run e0 calls
    ∧ err = None.
Proof.
  intros Hhandle Hacts.
  destruct (LoadingScreenHandler_acts_iff _ _ _ _ _ _ Hhandle) as [Hiff _].
  apply Hiff in Hacts as (-> & -> & Hexpected).
  revert Hhandle. rewrite loadingHandle_cases. cbv zeta.
  rewrite decide_False by done.
  rewrite (decide_False (P := _ ≠ _)) by (intros Hne; by apply Hne).
  rewrite decide_True by done. intros Hhandle.
  injection Hhandle as <- <- <-.
  set (e0 := setRequireResendDimension
               (setExpectedID (setChangingDimension e false) 0) false).
  set (dims := if requireResendDimension (sess e)
               then [changeDimension (atomic.wrap32 (dimensionID e0)) true true]
               else []).
  exists e0, dims, (Position (run e0 (dims ++ [Flush; ViewEntityState]))).
  split_and!; try reflexivity.
  rewrite !foldl_app. reflexivity.
Qed.

(** X20: a loading screen id is used up by the packet that ends the
    screen. If [requireResendDimension] was not set and the calls made
    leave the expected id alone, the handler, given the same packet again,
    makes no call, returns no error and changes nothing. *)
Theorem LoadingScreenHandler_replay ty lsid e e' calls err :
  ServerBoundLoadingScreenHandler_Handle effect dimensionID Position
    LoadingScreenTypeEnd (ServerBoundLoadingScreen ty lsid) e
  = Some (e', calls, err) →
  calls ≠ [] →
  requireResendDimension (sess e) = false →
  (∀ cl st, (∀ dim silent resend, cl ≠ changeDimension dim silent resend) →
     expectedID (loadingScreen (effect cl st))
     = expectedID (loadingScreen st)) →
  ServerBoundLoadingScreenHandler_Handle effect dimensionID Position
    LoadingScreenTypeEnd (ServerBoundLoadingScreen ty lsid) e'
  = Some (e', [], None).
Proof.
  intros Hhandle Hacts Hresend Hkeeps.
  destruct (LoadingScreenHandler_end _ _ _ _ _ _ Hhandle Hacts)
    as (e0 & dims & pos & _ & _ & Hzero & _ & _ & _ & _ & Hcalls & Hdims & He' & _).
  destruct (LoadingScreenHandler_acts_iff _ _ _ _ _ _ Hhandle) as [Hiff _].
  apply Hiff in Hacts as (_ & -> & _).
  rewrite loadingHandle_cases. cbv zeta.
  assert (Hused : expectedID (loadingScreen e') = 0).
  { rewrite He', Hcalls, Hdims, Hresend. simpl. by rewrite !Hkeeps. }
  rewrite Hused. by rewrite decide_True.
Qed.

End HandlerFacts.

Lemma ContainerCloseHandler_closes_iff_witness :
  ∃ e' calls err,
    ContainerCloseHandler_Handle countingEffect
      (ContainerClose 1) exampleState = Some (e', calls, err)
    ∧ closeCurrentContainer ∈ calls.
Proof.
  destruct (ContainerCloseHandler_Handle countingEffect
              (ContainerClose 1) exampleState) as [[[e' calls] err]|] eqn:Hhandle;
    [| vm_compute in Hhandle; discriminate].
  exists e', calls, err. split; [done|].
  apply (ContainerCloseHandler_closes_iff _ _ _ _ _ _ _ _ Hhandle).
  split; [done | reflexivity].
Defined.

Lemma ContainerCloseHandler_inventory_witness :
  ∃ e' calls err,
    ContainerCloseHandler_Handle countingEffect
      (ContainerClose 0) exampleState = Some (e', calls, err)
    ∧ invOpened (sess e') = false.
Proof.
  destruct (ContainerCloseHandler_Handle countingEffect
              (ContainerClose 0) exampleState) as [[[e' calls] err]|] eqn:Hhandle;
    [| vm_compute in Hhandle; discriminate].
  exists e', calls, err. split; [done|].
  by apply (ContainerCloseHandler_inventory _ _ _ _ _ _ _ _ Hhandle).
Defined.

Lemma ContainerCloseHandler_logs_iff_witness :
  ∃ e' calls err,
    ContainerCloseHandler_Handle countingEffect
      (ContainerClose 3) exampleState = Some (e', calls, err)
    ∧ ∃ msg window_id, LogDebug msg window_id ∈ calls.
Proof.
  destruct (ContainerCloseHandler_Handle countingEffect
              (ContainerClose 3) exampleState) as [[[e' calls] err]|] eqn:Hhandle;
    [| vm_compute in Hhandle; discriminate].
  exists e', calls, err. split; [done|].
  apply (ContainerCloseHandler_logs_iff _ _ _ _ _ _ _ _ Hhandle).
  split; [done|]. split; [vm_compute; discriminate | done].
Defined.

Lemma LoadingScreenHandler_error_iff_witness :
  ∃ e' calls err,
    exampleLoadingHandle (ServerBoundLoadingScreen 2 (Some 8)) exampleState
    = Some (e', calls, err)
    ∧ err = Some "expected loading screen ID 7, got 8"
    ∧ e' = exampleState.
Proof.
  destruct (exampleLoadingHandle (ServerBoundLoadingScreen 2 (Some 8))
              exampleState) as [[[e' calls] err]|] eqn:Hhandle;
    [| vm_compute in Hhandle; discriminate].
  exists e', calls, err. split; [done|].
  destruct (LoadingScreenHandler_error_iff _ _ _ _ _ _ _ _ _ _ _ _ Hhandle)
    as [Hiff Herr].
  assert (Hsome : is_Some err).
  { apply Hiff. exists 8. split; [done|]. split; vm_compute; discriminate. }
  destruct (Herr 8 Hsome eq_refl) as (-> & -> & _). split; reflexivity.
Defined.

Lemma LoadingScreenHandler_acts_iff_witness :
  ∃ e' calls err,
    exampleLoadingHandle (ServerBoundLoadingScreen 2 (Some 7)) exampleState
    = Some (e', calls, err)
    ∧ calls ≠ [].
Proof.
  destruct (exampleLoadingHandle (ServerBoundLoadingScreen 2 (Some 7))
              exampleState) as [[[e' calls] err]|] eqn:Hhandle;
    [| vm_compute in Hhandle; discriminate].
  exists e', calls, err. split; [done|].
  apply (LoadingScreenHandler_acts_iff _ _ _ _ _ _ _ _ _ _ _ _ Hhandle).
  split; [done|]. split; [done | vm_compute; discriminate].
Defined.

Lemma LoadingScreenHandler_end_witness :
  ∃ e' calls err,
    exampleLoadingHandle (ServerBoundLoadingScreen 2 (Some 7)) exampleState
    = Some (e', calls, err)
    ∧ calls = [changeDimension 1 true true; Flush; ViewEntityState;
               ViewEntityTeleport (1, 2, 3)]
    ∧ err = None.
Proof.
  destruct (exampleLoadingHandle (ServerBoundLoadingScreen 2 (Some 7))
              exampleState) as [[[e' calls] err]|] eqn:Hhandle;
    [| vm_compute in Hhandle; discriminate].
  exists e', calls, err. split; [done|].
  assert (Hacts : calls ≠ []).
  { vm_compute in Hhandle. by injection Hhandle as _ <- _. }
  destruct (LoadingScreenHandler_end _ _ _ _ _ _ _ _ _ _ _ _ Hhandle Hacts)
    as (e0 & dims & pos & _ & _ & _ & _ & _ & _ & _ & _ & _ & _ & Herr).
  split; [|exact Herr].
  vm_compute in Hhandle. by injection Hhandle as _ <- _.
Defined.

Lemma LoadingScreenHandler_replay_witness :
  ∃ e' calls err,
    exampleLoadingHandle (ServerBoundLoadingScreen 2 (Some 7)) waitingState
    = Some (e', calls, err)
    ∧ exampleLoadingHandle (ServerBoundLoadingScreen 2 (Some 7)) e'
      = Some (e', [], None).
Proof.
  destruct (exampleLoadingHandle (ServerBoundLoadingScreen 2 (Some 7))
              waitingState) as [[[e' calls] err]|] eqn:Hhandle;
    [| vm_compute in Hhandle; discriminate].
  exists e', calls, err. split; [done|].
  apply (LoadingScreenHandler_replay _ _ _ _ _ _ _ _ _ _ _ _ Hhandle).
  - vm_compute in Hhandle. by injection Hhandle as _ <- _.
  - reflexivity.
  - intros cl st Hother. destruct cl; try reflexivity.
    by destruct (Hother dim silent resend).
Defined.
